(** * A shallow embedding of boskos/mason/mason.go

    The Mason pipeline (Recycler, Fulfiller, Cleaners, Releaser) is modelled
    as explicit state passing over a state that records the broker calls made
    so far, the log lines emitted, and the three hand-off queues.  The broker,
    the config storage, the cancellation context and the user-data codec are
    collaborators: they are gathered in an environment record [Env], and every
    theorem quantifies over all environments.  A broker answer may depend on
    the whole history of calls made before it. *)

From stdpp Require Import base gmap strings list fin_maps.
From Stdlib Require Import ZArith Lia.
#[local] Set Warnings "-register-all".

Open Scope Z_scope.

(* ------------------------------------------------------------------ *)
(** ** Data model (package common) *)

(** [common.UserData]: a string to string map; a Go [nil] map is [None]. *)
Abbreviation UserData := (gmap string string).

(** [common.Resource] (the fields read or written by mason.go). *)
Record Resource := mkResource {
  res_Name : string;
  res_Type : string;
  res_State : string;
  res_UserData : option UserData
}.

(** [common.ResourceNeeds]: type tag to a Go [int] count. *)
Abbreviation ResourceNeeds := (gmap string Z).

(** [common.TypeToResources]: type tag to the resources leased for it. *)
Abbreviation TypeToResources := (gmap string (list Resource)).

(** [common.LeasedResources] is a Go [[]string]; [None] is the nil slice. *)
Abbreviation LeasedResourcesT := (option (list string)).

(** Modelled from the spec: [common.ConfigType], the constructor descriptor
    {type-tag, opaque content string}. *)
Record ConfigType := mkConfigType {
  ct_Type : string;
  ct_Content : string
}.

(** Modelled from the spec: [common.ResourcesConfig], a named bundle of the
    primary resource type it governs, its Needs and a constructor
    descriptor. *)
Record ResourcesConfig := mkResourcesConfig {
  cfg_Name : string;
  cfg_Type : string;
  cfg_Needs : ResourceNeeds;
  cfg_Config : ConfigType
}.

(** Go errors. [EUserDataNotFound] is [*common.UserDataNotFound], the only
    error kind mason.go inspects; [EMulti] is a go-multierror aggregate. *)
Inductive Err :=
| EUserDataNotFound (key : string)
| EMsg (msg : string)
| ECanceled
| EMulti (es : list Err).

(** Modelled from the spec: the broker state names of package common. *)
Definition Dirty : string := "dirty".
Definition Free : string := "free".
Definition Cleaning : string := "cleaning".
Definition Leased : string := "leased".

(** [const LeasedResources = "leasedResources"]. *)
Definition LeasedResources : string := "leasedResources".

(** [Masonable] and [ConfigConverter]. *)
Definition Masonable := Resource -> TypeToResources -> Err + UserData.
Definition ConfigConverter := string -> Err + Masonable.

(** [requirements]. *)
Record requirements := mkRequirements {
  resource : Resource;
  needs : ResourceNeeds;
  fulfillment : TypeToResources
}.

(** Broker client calls, as they appear in the trace. *)
Inductive Call :=
| CAcquire (rtype state dest : string)
| CAcquireByState (state dest : string) (names : list string)
| CReleaseOne (name dest : string)
| CUpdateOne (name state : string) (userData : option UserData).

Inductive Level := Debug | Info | Warning | Error.

(** The environment: broker client answers (as functions of the calls made
    before), the cancellation context, the config storage, the registered
    converters and the user-data codec of package common. *)
Record Env := mkEnv {
  b_Acquire : list Call -> string -> string -> string -> Err + Resource;
  b_AcquireByState : list Call -> string -> string -> list string ->
                     list Resource * option Err;
  b_ReleaseOne : list Call -> string -> string -> option Err;
  b_UpdateOne : list Call -> string -> string -> option UserData -> option Err;
  ctx_done : list Call -> bool;
  storage_GetConfig : string -> Err + ResourcesConfig;
  storage_GetConfigs : Err + list ResourcesConfig;
  configConverters : gmap string ConfigConverter;
  decode_names : string -> Err + LeasedResourcesT;
  encode_names : LeasedResourcesT -> Err + string
}.

(** The pipeline state: the broker calls made, the log lines, and the three
    channels (unbounded FIFO queues here; a push appends). *)
Record St := mkSt {
  trace : list Call;
  logs : list (Level * string);
  pending : list requirements;
  fulfilled : list requirements;
  cleaned : list requirements
}.

(** A state monad over [St]. *)
Definition M (A : Type) := St -> A * St.
Definition ret {A} (a : A) : M A := fun s => (a, s).
Definition mbind {A B} (m : M A) (k : A -> M B) : M B :=
  fun s => let '(a, s') := m s in k a s'.
Notation "'let*' x ':=' m 'in' k" := (mbind m (fun x => k))
  (at level 200, x pattern, m at level 100, k at level 200).
Notation "m ;; k" := (mbind m (fun _ => k)) (at level 100, right associativity).

(* ------------------------------------------------------------------ *)
(** ** Pure functions *)

(** [func (r requirements) isFulFilled() bool]: a [for rType, count := range
    r.needs] loop with early [return false]; Go's map order is modelled by
    [map_to_list]. *)
Fixpoint isFulFilled_loop (l : list (string * Z)) (ful : TypeToResources) : bool :=
  match l with
  | [] => true
  | (rType, count) :: l' =>
      match ful !! rType with
      | None => false
      | Some resources =>
          if Z.eqb (Z.of_nat (length resources)) count
          then isFulFilled_loop l' ful else false
      end
  end.

Definition isFulFilled (r : requirements) : bool :=
  isFulFilled_loop (map_to_list (needs r)) (fulfillment r).

(** [ValidateConfig], first loop: [configNames[c.Name] = c.Needs], failing on
    a name seen before. *)
Fixpoint configNames_loop (configs : list ResourcesConfig)
    (configNames : gmap string ResourceNeeds) : Err + gmap string ResourceNeeds :=
  match configs with
  | [] => inr configNames
  | c :: configs' =>
      match configNames !! cfg_Name c with
      | Some _ => inl (EMsg "config already exists")
      | None => configNames_loop configs' (<[cfg_Name c := cfg_Needs c]> configNames)
      end
  end.

(** Go's [int], 64 bits wide on the platforms boskos runs on: arithmetic on
    it wraps around modulo 2^64 into [-2^63, 2^63). *)
Definition int64_wrap (z : Z) : Z := (z + 2^63) mod 2^64 - 2^63.

(** [for k, v := range c { resourcesNeeds[k] += v }], in [int]. *)
Definition add_needs (c : ResourceNeeds) (resourcesNeeds : gmap string Z) : gmap string Z :=
  fold_left (fun acc kv => <[kv.1 := int64_wrap (default 0 (acc !! kv.1) + kv.2)]> acc)
    (map_to_list c) resourcesNeeds.

(** [ValidateConfig], second loop, over the census.  The inner
    [c, ok := configNames[res.Type]; if !ok] branch of the source is
    unreachable after [useConfig] and is folded into the match. *)
Fixpoint census_loop (configNames : gmap string ResourceNeeds) (resources : list Resource)
    (resourcesNeeds actualResources : gmap string Z) : gmap string Z * gmap string Z :=
  match resources with
  | [] => (resourcesNeeds, actualResources)
  | res :: resources' =>
      let resourcesNeeds' :=
        match configNames !! res_Type res with
        | Some c => add_needs c resourcesNeeds
        | None => resourcesNeeds
        end in
      census_loop configNames resources' resourcesNeeds'
        (<[res_Type res := int64_wrap (default 0 (actualResources !! res_Type res) + 1)]> actualResources)
  end.

(** [ValidateConfig], third loop, over [resourcesNeeds]. *)
Fixpoint needs_loop (l : list (string * Z)) (actualResources : gmap string Z) : option Err :=
  match l with
  | [] => None
  | (rType, n) :: l' =>
      match actualResources !! rType with
      | None => Some (EMsg "need for resource that does not exist")
      | Some actual =>
          if Z.ltb actual n then Some (EMsg "not enough resource for provisioning")
          else needs_loop l' actualResources
      end
  end.

(** [func ValidateConfig(configs, resources) error]; [None] is [nil].  The
    Go function only reads its slices, so it is a pure function here. *)
Definition ValidateConfig (configs : list ResourcesConfig) (resources : list Resource)
    : option Err :=
  match configNames_loop configs ∅ with
  | inl e => Some e
  | inr configNames =>
      let '(resourcesNeeds, actualResources) := census_loop configNames resources ∅ ∅ in
      needs_loop (map_to_list resourcesNeeds) actualResources
  end.

(** Vocabulary for describing [ValidateConfig]'s outcome in terms of its
    inputs.  [cfg_lookup configs n] is the first config named [n]. *)
Definition cfg_lookup (configs : list ResourcesConfig) (n : string) : option ResourcesConfig :=
  List.find (fun c => String.eqb (cfg_Name c) n) configs.

Definition cfg_needs_for (configs : list ResourcesConfig) (n : string) : option ResourceNeeds :=
  cfg_Needs <$> cfg_lookup configs n.

(** [k] is a key of the Needs of the config named after [res]'s type. *)
Definition needs_key (configs : list ResourcesConfig) (k : string) (res : Resource) : bool :=
  match cfg_needs_for configs (res_Type res) with
  | Some c => bool_decide (is_Some (c !! k))
  | None => false
  end.

(** The Needs for [k], summed once per census resource, taking the config
    named after that resource's type. *)
Definition needed (configs : list ResourcesConfig) (resources : list Resource) (k : string) : Z :=
  fold_right (fun res acc =>
    match cfg_needs_for configs (res_Type res) with
    | Some c => default 0 (c !! k)
    | None => 0
    end + acc) 0 resources.

(** Number of census resources of type [k]. *)
Definition census_count (resources : list Resource) (k : string) : Z :=
  Z.of_nat (length (List.filter (fun res => String.eqb (res_Type res) k) resources)).

(** Needs for [k] summed once per config whose name [Name] (equivalently,
    whose primary type) is the type of some census resource. *)
Definition needed_per_config (configs : list ResourcesConfig) (resources : list Resource)
    (k : string) : Z :=
  fold_right (fun c acc =>
    (if existsb (fun res => String.eqb (res_Type res) (cfg_Name c)) resources
     then default 0 (cfg_Needs c !! k) else 0) + acc) 0 configs.

(* ------------------------------------------------------------------ *)
(** ** State helpers *)

Definition add_call (c : Call) (s : St) : St :=
  mkSt (trace s ++ [c]) (logs s) (pending s) (fulfilled s) (cleaned s).
Definition add_log (l : Level * string) (s : St) : St :=
  mkSt (trace s) (logs s ++ [l]) (pending s) (fulfilled s) (cleaned s).
Definition push_pending (r : requirements) : M unit := fun s =>
  (tt, mkSt (trace s) (logs s) (pending s ++ [r]) (fulfilled s) (cleaned s)).
Definition push_fulfilled (r : requirements) : M unit := fun s =>
  (tt, mkSt (trace s) (logs s) (pending s) (fulfilled s ++ [r]) (cleaned s)).
Definition push_cleaned (r : requirements) : M unit := fun s =>
  (tt, mkSt (trace s) (logs s) (pending s) (fulfilled s) (cleaned s ++ [r])).

Definition log (lvl : Level) (msg : string) : M unit := fun s => (tt, add_log (lvl, msg) s).

Fixpoint mapM_ {A} (f : A -> M unit) (l : list A) : M unit :=
  match l with
  | [] => ret tt
  | x :: l' => f x ;; mapM_ f l'
  end.

(** [for _, resources := range ful { for _, r := range resources { body r } }]. *)
Definition for_each_resource (ful : TypeToResources) (body : Resource -> M unit) : M unit :=
  mapM_ (fun kv => mapM_ body kv.2) (map_to_list ful).

(** All resources of a [TypeToResources], in the iteration order above. *)
Definition all_resources (ful : TypeToResources) : list Resource :=
  concat (map snd (map_to_list ful)).

Definition with_UserData (res : Resource) (ud : option UserData) : Resource :=
  mkResource (res_Name res) (res_Type res) (res_State res) ud.

(** Modelled from the spec: [UserData.Update(other)] merges [other] into the
    map by key. *)
Definition ud_Update (ud other : UserData) : UserData := other ∪ ud.

(** [func (m *Mason) RegisterConfigConverter(name, fn) error], on the
    [m.configConverters] map: the error and the map afterwards. *)
Definition RegisterConfigConverter (name : string) (fn : ConfigConverter)
    (configConverters : gmap string ConfigConverter) : option Err * gmap string ConfigConverter :=
  match configConverters !! name with
  | Some _ => (Some (EMsg "a converter already exists"), configConverters)
  | None => (None, <[name := fn]> configConverters)
  end.

(** The environment of a Mason whose converter registry is [convs]. *)
Definition set_converters (E : Env) (convs : gmap string ConfigConverter) : Env :=
  mkEnv (b_Acquire E) (b_AcquireByState E) (b_ReleaseOne E) (b_UpdateOne E) (ctx_done E)
    (storage_GetConfig E) (storage_GetConfigs E) convs (decode_names E) (encode_names E).

Section Mason.
Variable E : Env.

(** Broker client calls: the answer is computed from the calls made before,
    and the call is appended to the trace. *)
Definition Acquire (rtype state dest : string) : M (Err + Resource) := fun s =>
  (b_Acquire E (trace s) rtype state dest, add_call (CAcquire rtype state dest) s).
Definition AcquireByState (state dest : string) (names : list string)
    : M (list Resource * option Err) := fun s =>
  (b_AcquireByState E (trace s) state dest names,
   add_call (CAcquireByState state dest names) s).
Definition ReleaseOne (name dest : string) : M (option Err) := fun s =>
  (b_ReleaseOne E (trace s) name dest, add_call (CReleaseOne name dest) s).
Definition UpdateOne (name state : string) (ud : option UserData) : M (option Err) := fun s =>
  (b_UpdateOne E (trace s) name state ud, add_call (CUpdateOne name state ud) s).

(** [<-ctx.Done()] wins the [select]. *)
Definition ctxDone : M bool := fun s => (ctx_done E (trace s), s).

(** Modelled from the spec: [UserData.Extract(key, &out)] for a
    [LeasedResources] value: a distinguished not-found error when the key is
    absent (a nil map has no key), otherwise the decoded value. *)
Definition ud_Extract (ud : option UserData) (key : string) : Err + LeasedResourcesT :=
  match ud with
  | None => inl (EUserDataNotFound key)
  | Some m =>
      match m !! key with
      | None => inl (EUserDataNotFound key)
      | Some content => decode_names E content
      end
  end.

(** Modelled from the spec: [UserData.Set(key, value)] encodes and stores. *)
Definition ud_Set (ud : UserData) (key : string) (v : LeasedResourcesT) : Err + UserData :=
  match encode_names E v with
  | inl e => inl e
  | inr content => inr (<[key := content]> ud)
  end.

(** [func (m *Mason) convertConfig(configEntry) (Masonable, error)]. *)
Definition convertConfig (configEntry : ResourcesConfig) : Err + Masonable :=
  match configConverters E !! ct_Type (cfg_Config configEntry) with
  | None => inl (EMsg "config type is not supported")
  | Some fn => fn (ct_Content (cfg_Config configEntry))
  end.

(** ** Cleaner *)

(** [func (m *Mason) cleanOne(res *Resource, leasedResources) error]; the
    second component is [*res] after the call. *)
Definition cleanOne (res : Resource) (leasedResources : TypeToResources)
    : M (option Err * Resource) :=
  match storage_GetConfig E (res_Type res) with
  | inl err => log Error "failed to get config for resource" ;; ret (Some err, res)
  | inr configEntry =>
      match convertConfig configEntry with
      | inl err => log Error "failed to convert config type" ;; ret (Some err, res)
      | inr config =>
          match config res leasedResources with
          | inl err => log Error "failed to construct resource" ;; ret (Some err, res)
          | inr userData =>
              let* e := UpdateOne (res_Name res) (res_State res) (Some userData) in
              match e with
              | Some err => log Error "unable to update user data" ;; ret (Some err, res)
              | None =>
                  let res' := with_UserData res
                    (Some match res_UserData res with
                          | None => userData
                          | Some ud => ud_Update ud userData
                          end) in
                  log Info "Resource is cleaned" ;; ret (None, res')
              end
          end
      end
  end.

(** The body of [case req := <-m.fulfilled:] in [cleanAll]. *)
Definition cleanAll_step (req : requirements) : M unit :=
  let* (e, res') := cleanOne (resource req) (fulfillment req) in
  let req' := mkRequirements res' (needs req) (fulfillment req) in
  match e with
  | Some _ =>
      let* err := ReleaseOne (res_Name res') Dirty in
      (match err with Some _ => log Error "Unable to release resource" | None => ret tt end) ;;
      for_each_resource (fulfillment req') (fun r =>
        let* err := ReleaseOne (res_Name r) Dirty in
        match err with Some _ => log Error "Unable to release leased resource" | None => ret tt end)
  | None => push_cleaned req'
  end.

(** ** Releaser *)

(** [for _, name := range leasedResources { ... multierror.Append ... }];
    the accumulated list is [allErrors], [[]] standing for [nil]. *)
Fixpoint release_names (names : list string) (dest : string) (allErrors : list Err)
    : M (list Err) :=
  match names with
  | [] => ret allErrors
  | name :: names' =>
      let* e := ReleaseOne name dest in
      match e with
      | Some err =>
          log Error "unable to release to state" ;;
          release_names names' dest (allErrors ++ [err])
      | None => release_names names' dest allErrors
      end
  end.

(** [func (m *Mason) freeOne(res *Resource) error]. *)
Definition freeOne (res : Resource) : M (option Err) :=
  let* e := ReleaseOne (res_Name res) Free in
  match e with
  | Some err => log Error "failed to release resource" ;; ret (Some err)
  | None =>
      match res_UserData res with
      | None => log Error "failed to extract leasedResources" ;;
                ret (Some (EMsg "UserData is empty"))
      | Some ud =>
          match ud_Extract (Some ud) LeasedResources with
          | inl err => log Error "failed to extract leasedResources" ;; ret (Some err)
          | inr leasedResources =>
              let* allErrors := release_names (default [] leasedResources) (res_Name res) [] in
              match allErrors with
              | [] => log Info "Resource has been freed" ;; ret None
              | _ => ret (Some (EMulti allErrors))
              end
          end
      end
  end.

(** The body of [case req := <-m.cleaned:] in [freeAll]. *)
Definition freeAll_step (req : requirements) : M unit :=
  let* e := freeOne (resource req) in
  match e with
  | Some _ => push_cleaned req
  | None => ret tt
  end.

(** ** Recycler *)

(** [func (m *Mason) recycleOne(res *Resource)], returning a request or an error. *)
Definition recycleOne (res : Resource) : M (Err + requirements) :=
  log Info "Resource is being recycled" ;;
  match storage_GetConfig E (res_Type res) with
  | inl err => log Error "could not get config for resource type" ;; ret (inl err)
  | inr configEntry =>
      let extracted :=
        match ud_Extract (res_UserData res) LeasedResources with
        | inl (EUserDataNotFound _) => inr None
        | inl err => inl err
        | inr lr => inr lr
        end in
      match extracted with
      | inl err => log Error "cannot parse leasedResources from User Data" ;; ret (inl err)
      | inr leasedResources =>
          let* res' :=
            match leasedResources with
            | None => ret res
            | Some names =>
                let* (resources, err) := AcquireByState (res_Name res) Leased names in
                (match err with
                 | Some _ => log Warning "could not acquire any leased resources"
                 | None => ret tt end) ;;
                mapM_ (fun r =>
                  let* e := ReleaseOne (res_Name r) Dirty in
                  match e with
                  | Some _ => log Warning "could not release resource"
                  | None => ret tt end) resources ;;
                let res' := with_UserData res (delete LeasedResources <$> res_UserData res) in
                let* e := UpdateOne (res_Name res) (res_State res)
                            (Some {[LeasedResources := ""]}) in
                (match e with
                 | Some _ => log Error "could not update resource with freed leased resources"
                 | None => ret tt end) ;;
                ret res'
            end in
          ret (inr (mkRequirements res' (cfg_Needs configEntry) ∅))
      end
  end.

(** One [for _, r := range configTypes] iteration of [recycleAll]. *)
Definition recycle_type (r : string) : M unit :=
  let* a := Acquire r Dirty Cleaning in
  match a with
  | inl _ => log Debug "boskos acquire failed!"
  | inr res =>
      let* rq := recycleOne res in
      match rq with
      | inl _ =>
          log Error "unable to recycle resource" ;;
          let* e := ReleaseOne (res_Name res) Dirty in
          match e with Some _ => log Error "Unable to release resources" | None => ret tt end
      | inr req => push_pending req
      end
  end.

(** The body of [case <-time.After(m.sleepTime):] in [recycleAll]. *)
Definition recycleAll_iter : M unit :=
  match storage_GetConfigs E with
  | inl _ => log Error "unable to get configuration"
  | inr configs =>
      let configTypes := map cfg_Name configs in
      mapM_ recycle_type configTypes
  end.

(** ** Fulfiller *)

(** [func (m *Mason) updateResources(req *requirements)]: a nil-user-data
    heartbeat for the primary and every leased resource. *)
Definition updateResources (req : requirements) : M unit :=
  mapM_ (fun r =>
    let* e := UpdateOne (res_Name r) (res_State r) None in
    match e with Some _ => log Warning "failed to update resource" | None => ret tt end)
    (resource req :: all_resources (fulfillment req)).

(** How the acquisition loops of [fulfillOne] ended. [LOutOfFuel] stands for
    a loop still running when the fuel, a bound on its iterations, ran out. *)
Inductive LoopOut := LCancelled | LCompleted | LOutOfFuel.

(** [for needs[rType] > 0 { select { ... } }], with [n = needs[rType]]. *)
Fixpoint fulfill_type (fuel : nat) (rType : string) (n : Z) (req : requirements)
    : M (LoopOut * requirements) :=
  match fuel with
  | O => ret (LOutOfFuel, req)
  | S fuel' =>
      if Z.ltb 0 n then
        let* d := ctxDone in
        if d then ret (LCancelled, req) else
        updateResources req ;;
        let* a := Acquire rType Free Leased in
        match a with
        | inl _ => log Debug "boskos acquire failed!" ;; fulfill_type fuel' rType n req
        | inr res =>
            let ful := fulfillment req in
            let req' := mkRequirements (resource req) (needs req)
                          (<[rType := default [] (ful !! rType) ++ [res]]> ful) in
            fulfill_type fuel' rType (n - 1) req'
        end
      else ret (LCompleted, req)
  end.

(** [for rType := range needs]: each key is visited once, and only its own
    count changes in its iteration, so the pairs of the initial copy are
    iterated. *)
Fixpoint fulfill_types (fuel : nat) (l : list (string * Z)) (req : requirements)
    : M (LoopOut * requirements) :=
  match l with
  | [] => ret (LCompleted, req)
  | (rType, n) :: l' =>
      let* (o, req') := fulfill_type fuel rType n req in
      match o with
      | LCompleted => fulfill_types fuel l' req'
      | _ => ret (o, req')
      end
  end.

(** The [if req.isFulFilled() { ... } return nil] tail of [fulfillOne]. *)
Definition fulfillOne_finish (req : requirements) : M (option Err * requirements) :=
  if isFulFilled req then
    let names := map res_Name (all_resources (fulfillment req)) in
    let leasedResources : LeasedResourcesT := match names with [] => None | _ => Some names end in
    match ud_Set ∅ LeasedResources leasedResources with
    | inl err => log Error "failed to add leasedResources user data" ;; ret (Some err, req)
    | inr userData =>
        let* e := UpdateOne (res_Name (resource req)) (res_State (resource req)) (Some userData) in
        match e with
        | Some err => log Error "Unable to release resource" ;; ret (Some err, req)
        | None =>
            let res := resource req in
            let res' := with_UserData res
              (Some match res_UserData res with
                    | None => userData
                    | Some ud => ud_Update ud userData
                    end) in
            log Info "requirements for release is fulfilled" ;;
            ret (None, mkRequirements res' (needs req) (fulfillment req))
        end
    end
  else ret (None, req).

(** [func (m *Mason) fulfillOne(ctx, req *requirements) error]: [None] when
    the fuel ran out before it returned, [Some e] with [e] its error result;
    the requirements are [*req] afterwards. *)
Definition fulfillOne (fuel : nat) (req : requirements)
    : M (option (option Err) * requirements) :=
  let* (o, req') := fulfill_types fuel (map_to_list (needs req)) req in
  match o with
  | LOutOfFuel => ret (None, req')
  | LCancelled => ret (Some (Some ECanceled), req')
  | LCompleted =>
      let* (e, req'') := fulfillOne_finish req' in
      ret (Some e, req'')
  end.

(** The body of [case req := <-m.pending:] in [fulfillAll]. *)
Definition fulfillAll_step (fuel : nat) (req : requirements) : M unit :=
  let* (r, req') := fulfillOne fuel req in
  match r with
  | None => ret tt
  | Some (Some _) =>
      for_each_resource (fulfillment req') (fun res =>
        let* e := ReleaseOne (res_Name res) Free in
        (match e with Some _ => log Error "failed to release resource" | None => ret tt end) ;;
        log Info "Released resource")
  | Some None => push_fulfilled req'
  end.

End Mason.

(* ------------------------------------------------------------------ *)
(** ** Sample collaborators, used to run the model on concrete inputs *)

(** A sample codec for [leasedResources] values, in the YAML flow style. *)
Definition sample_encode (v : LeasedResourcesT) : Err + string :=
  match v with
  | None => inr "null"
  | Some l => inr ("[" ++ String.concat ", " l ++ "]")%string
  end.

Definition sample_decode (content : string) : Err + LeasedResourcesT :=
  if String.eqb content "[b1, b2]" then inr (Some ["b1"; "b2"])
  else if String.eqb content "[b1]" then inr (Some ["b1"])
  else if String.eqb content "null" then inr None
  else inl (EMsg "yaml: unmarshal errors").

Definition a1 : Resource := mkResource "a1" "A" Cleaning None.
Definition b1 : Resource := mkResource "b1" "B" Leased None.
Definition b2 : Resource := mkResource "b2" "B" Leased None.

(** One config [cfg] with primary type [A] and needs [{B: 2}]. *)
Definition sample_cfg : ResourcesConfig :=
  mkResourcesConfig "cfg" "A" {[ "B" := 2 ]} (mkConfigType "greeter" "hi").

Definition a2 : Resource := mkResource "a2" "A" Cleaning None.

(** A config named after its primary type [A], needing one [B]. *)
Definition cfg_A : ResourcesConfig :=
  mkResourcesConfig "A" "A" {[ "B" := 1 ]} (mkConfigType "greeter" "hi").

Definition st0 : St := mkSt [] [] [] [] [].

Definition is_acquire (c : Call) : bool :=
  match c with CAcquire _ _ _ => true | _ => false end.

Definition count_acquires (tr : list Call) : nat := length (List.filter is_acquire tr).

(** A broker that hands out [b1], then [b2], then nothing; [AcquireByState]
    returns the named resources parked under the requested state; releases
    and updates succeed unless [rel_fails] says otherwise. *)
Definition sample_env (rel_fails : string -> string -> bool) (cancel : list Call -> bool)
    (getcfg : string -> Err + ResourcesConfig) : Env :=
  mkEnv
    (fun tr _ _ _ =>
       match count_acquires tr with
       | O => inr b1
       | 1%nat => inr b2
       | _ => inl (EMsg "resource not found")
       end)
    (fun _ state _ names => (map (fun n => mkResource n "B" state None) names, None))
    (fun _ name dest => if rel_fails name dest then Some (EMsg "release failed") else None)
    (fun _ _ _ _ => None)
    cancel getcfg (inr [sample_cfg]) ∅ sample_decode sample_encode.

(** Sample environments: everything succeeds ([env_ok]); config lookup
    fails ([env_nocfg]); the context is cancelled once one resource has been
    acquired ([env_cancel]). *)
Definition env_ok : Env :=
  sample_env (fun _ _ => false) (fun _ => false) (fun _ => inr sample_cfg).
Definition env_nocfg : Env :=
  sample_env (fun _ _ => false) (fun _ => false) (fun _ => inl (EMsg "no config")).
Definition env_cancel : Env :=
  sample_env (fun _ _ => false) (fun tr => Nat.leb 1 (count_acquires tr)) (fun _ => inr sample_cfg).

Definition needs_B2 : ResourceNeeds := {[ "B" := 2 ]}.
Definition ful_b1b2 : TypeToResources := {[ "B" := [b1; b2] ]}.

(** [a1] holding [b1] and [b2]; [a1] waiting for two [B]s; [a1] with a
    zero need for [B]. *)
Definition req_held : requirements := mkRequirements a1 needs_B2 ful_b1b2.
Definition req_wait : requirements := mkRequirements a1 needs_B2 ∅.
Definition req_zero : requirements := mkRequirements a1 {[ "B" := 0 ]} ∅.

(** A primary whose user-data records the lease of [b1] and [b2]. *)
Definition ud_b1b2 : UserData := {[ LeasedResources := "[b1, b2]" ]}.
Definition a1_leasing : Resource := mkResource "a1" "A" Cleaning (Some ud_b1b2).

(** A converter for the tag [greeter]: its Masonable stores the config
    content under the user-data key [greeting]; [env_greeter] is [env_ok]
    with it registered. *)
Definition greeter_converter : ConfigConverter :=
  fun content => inr (fun _ _ => inr {[ "greeting" := content ]}).
Definition env_greeter : Env := set_converters env_ok {[ "greeter" := greeter_converter ]}.

(** [fulfillOne] run on [req_wait] with [env_ok], and the requirements it
    leaves. *)
Definition wait_run : (option (option Err) * requirements) * St := fulfillOne env_ok 5 req_wait st0.
Definition wait_req' : requirements := snd (fst wait_run).

(** The [LeasedResources] value [fulfillOne] stores for a request: the names
    of all fulfilled resources, a nil list when there are none. *)
Definition lease_value (req : requirements) : LeasedResourcesT :=
  let names := map res_Name (all_resources (fulfillment req)) in
  match names with [] => None | _ => Some names end.

(** A call the acquisition loops of [fulfillOne] may make for a request with
    needs [needs]: an [Acquire] from free to leased of a type needed with a
    positive count, or a heartbeat [UpdateOne] with nil user-data. *)
Definition loop_call (needs : ResourceNeeds) (c : Call) : Prop :=
  match c with
  | CAcquire t st d => st = Free /\ d = Leased /\ exists n, needs !! t = Some n /\ 0 < n
  | CUpdateOne _ _ u => u = None
  | _ => False
  end.

(* ================================================================== *)
(** * Properties *)

(** ** isFulFilled *)

Lemma isFulFilled_loop_true (l : list (string * Z)) (ful : TypeToResources) :
  isFulFilled_loop l ful = true <->
  Forall (fun '(t, c) => exists rs, ful !! t = Some rs /\ Z.of_nat (length rs) = c) l.
Proof.
  induction l as [|[t c] l IH]; simpl.
  - split; constructor.
  - rewrite Forall_cons. destruct (ful !! t) as [rs|] eqn:Ht.
    + destruct (Z.eqb_spec (Z.of_nat (length rs)) c) as [Hc|Hc].
      * rewrite IH. split; [intros H; split; eauto | intros [_ H]; exact H].
      * split; [discriminate|]. intros [(rs' & Hrs' & Hl) _]. congruence.
    + split; [discriminate|]. intros [(rs' & Hrs' & _) _]. congruence.
Qed.

Lemma isFulFilled_iff (r : requirements) :
  isFulFilled r = true <->
  forall t c, needs r !! t = Some c ->
    exists rs, fulfillment r !! t = Some rs /\ Z.of_nat (length rs) = c.
Proof.
  unfold isFulFilled. rewrite isFulFilled_loop_true.
  pose proof (map_Forall_to_list
    (fun t c => exists rs, fulfillment r !! t = Some rs /\ Z.of_nat (length rs) = c)
    (needs r)) as H.
  unfold map_Forall in H. rewrite <- H. clear H.
  split; intros H; exact H.
Qed.

(** C4: [isFulFilled r] holds iff every type [t] of [r.needs] has an entry in
    [r.fulfillment] with exactly [r.needs[t]] elements; entries of the
    fulfillment for types outside [r.needs] do not change the result. *)
Theorem isFulFilled_characterization (r : requirements) :
  (isFulFilled r = true <->
   forall t c, needs r !! t = Some c ->
     exists rs, fulfillment r !! t = Some rs /\ Z.of_nat (length rs) = c) /\
  (forall ful' : TypeToResources,
     (forall t, is_Some (needs r !! t) -> ful' !! t = fulfillment r !! t) ->
     isFulFilled (mkRequirements (resource r) (needs r) ful') = isFulFilled r).
Proof.
  split; [apply isFulFilled_iff|].
  intros ful' Hagree.
  apply Bool.eq_true_iff_eq. rewrite !isFulFilled_iff. simpl.
  assert (Heq : forall t c, needs r !! t = Some c -> ful' !! t = fulfillment r !! t)
    by (intros t c Hc; apply Hagree; rewrite Hc; eauto).
  split; intros H t c Hc; specialize (H t c Hc); specialize (Heq t c Hc);
    destruct H as (rs & Hrs & Hl); exists rs; split; congruence.
Qed.

(** ** Traces of loops *)

(** [m] appends exactly [cs] to the broker trace and leaves the queues as
    they are (it may log). *)
Definition emits (m : M unit) (cs : list Call) : Prop :=
  forall s, trace (snd (m s)) = trace s ++ cs /\ pending (snd (m s)) = pending s /\
            fulfilled (snd (m s)) = fulfilled s /\ cleaned (snd (m s)) = cleaned s.

Create HintDb mason discriminated.
#[local] Hint Unfold mbind ret log add_log add_call Acquire AcquireByState ReleaseOne
  UpdateOne ctxDone push_pending push_fulfilled push_cleaned : mason.

Ltac mrun := repeat autounfold with mason; simpl.

Lemma emits_ret : emits (ret tt) [].
Proof. intros s. mrun. rewrite app_nil_r. auto. Qed.

Lemma emits_bind (m1 m2 : M unit) cs1 cs2 :
  emits m1 cs1 -> emits m2 cs2 -> emits (m1 ;; m2) (cs1 ++ cs2).
Proof.
  intros H1 H2 s. unfold mbind. destruct (m1 s) as [[] s1] eqn:Hm1.
  specialize (H1 s). rewrite Hm1 in H1. simpl in H1. destruct H1 as (T1 & P1 & F1 & C1).
  destruct (H2 s1) as (T2 & P2 & F2 & C2).
  rewrite T2, P2, F2, C2, T1, P1, F1, C1, List.app_assoc. auto.
Qed.

Lemma emits_mapM_ {A} (f : A -> M unit) (g : A -> list Call) (l : list A) :
  (forall x, emits (f x) (g x)) -> emits (mapM_ f l) (concat (map g l)).
Proof.
  intros Hf. induction l as [|x l IH]; simpl.
  - apply emits_ret.
  - apply emits_bind; auto.
Qed.

Lemma emits_for_each_resource (ful : TypeToResources) body (g : Resource -> list Call) :
  (forall r, emits (body r) (g r)) ->
  emits (for_each_resource ful body) (concat (map g (all_resources ful))).
Proof.
  intros Hb. unfold for_each_resource, all_resources.
  replace (concat (map g (concat (map snd (map_to_list ful)))))
    with (concat (map (fun kv : string * list Resource => concat (map g kv.2)) (map_to_list ful))).
  - apply emits_mapM_. intros kv. apply emits_mapM_. exact Hb.
  - induction (map_to_list ful) as [|kv l IH]; simpl; [done|].
    rewrite map_app, concat_app, IH. done.
Qed.

Lemma emits_release_logged (E : Env) (name dest : string) (onerr : M unit) :
  emits onerr [] ->
  emits (let* e := ReleaseOne E name dest in
         match e with Some _ => onerr | None => ret tt end)
        [CReleaseOne name dest].
Proof.
  intros Hon s. unfold mbind, ReleaseOne. destruct (b_ReleaseOne _ _ _ _).
  - destruct (Hon (add_call (CReleaseOne name dest) s)) as (T & P & F & C).
    rewrite T, P, F, C. unfold add_call. simpl. rewrite app_nil_r. auto.
  - unfold ret, add_call. simpl. auto.
Qed.

Lemma emits_log (lvl : Level) (msg : string) : emits (log lvl msg) [].
Proof. intros s. mrun. rewrite app_nil_r. auto. Qed.

#[local] Hint Resolve emits_log emits_ret : mason.

(** ** Cleaner *)

Lemma concat_map_singleton {A B} (f : A -> B) (l : list A) :
  concat (map (fun x => [f x]) l) = map f l.
Proof. induction l as [|x l IH]; simpl; [done|]. by rewrite IH. Qed.

Lemma cleanOne_error_state (E : Env) (res : Resource) (l : TypeToResources)
    (s s1 : St) (err : Err) (res' : Resource) :
  cleanOne E res l s = ((Some err, res'), s1) ->
  res' = res /\ pending s1 = pending s /\ fulfilled s1 = fulfilled s /\ cleaned s1 = cleaned s.
Proof.
  unfold cleanOne, convertConfig.
  destruct (storage_GetConfig E (res_Type res)) as [e|cfg];
    [mrun; intros H; inversion H; subst; auto|].
  destruct (configConverters E !! _) as [fn|];
    [|mrun; intros H; inversion H; subst; auto].
  destruct (fn _) as [e|config]; [mrun; intros H; inversion H; subst; auto|].
  destruct (config res l) as [e|ud]; [mrun; intros H; inversion H; subst; auto|].
  mrun. destruct (b_UpdateOne _ _ _ _ _); mrun; intros H; inversion H; subst; auto.
Qed.

(** C2: when [cleanOne] fails (config lookup, converter, [Construct] or the
    broker [UpdateOne]), [cleanAll] releases the primary to dirty and then
    every resource of the request's fulfillment, all types and all slots, to
    dirty, and pushes nothing onto any queue, in particular not onto
    [cleaned]. *)
Theorem cleanAll_failure_releases_all_dirty (E : Env) (req : requirements)
    (s s1 : St) (err : Err) (res' : Resource) :
  cleanOne E (resource req) (fulfillment req) s = ((Some err, res'), s1) ->
  let s' := snd (cleanAll_step E req s) in
  trace s' = trace s1 ++ CReleaseOne (res_Name (resource req)) Dirty ::
               map (fun r => CReleaseOne (res_Name r) Dirty) (all_resources (fulfillment req)) /\
  cleaned s' = cleaned s /\ pending s' = pending s /\ fulfilled s' = fulfilled s.
Proof.
  intros Hc. pose proof (cleanOne_error_state _ _ _ _ _ _ _ Hc) as (-> & P1 & F1 & C1).
  set (rel := (let* e := ReleaseOne E (res_Name (resource req)) Dirty in
     match e with Some _ => log Error "Unable to release resource" | None => ret tt end) ;;
    for_each_resource (fulfillment req) (fun r =>
      let* e := ReleaseOne E (res_Name r) Dirty in
      match e with Some _ => log Error "Unable to release leased resource" | None => ret tt end)).
  assert (Hstep : cleanAll_step E req s = rel s1)
    by (unfold cleanAll_step, mbind at 1; rewrite Hc; reflexivity).
  cbv zeta. rewrite Hstep. unfold rel.
  pose proof (emits_bind _ _ _ _
    (emits_release_logged E (res_Name (resource req)) Dirty _ (emits_log Error "Unable to release resource"))
    (emits_for_each_resource (fulfillment req) _ (fun r => [CReleaseOne (res_Name r) Dirty])
       (fun r => emits_release_logged E (res_Name r) Dirty _ (emits_log Error "Unable to release leased resource"))))
    as Hem.
  destruct (Hem s1) as (T & P & F & C).
  rewrite T, P, F, C, P1, F1, C1. simpl.
  rewrite concat_map_singleton. auto.
Qed.

(** ** Queue-preserving computations *)

Definition queues (s : St) := (pending s, fulfilled s, cleaned s).

(** [m] pushes nothing onto any queue. *)
Definition keeps {A} (m : M A) : Prop := forall s, queues (snd (m s)) = queues s.

Lemma keeps_ret {A} (a : A) : keeps (ret a).
Proof. intros s. done. Qed.

Lemma keeps_bind {A B} (m : M A) (k : A -> M B) :
  keeps m -> (forall a, keeps (k a)) -> keeps (mbind m k).
Proof.
  intros Hm Hk s. unfold mbind. specialize (Hm s).
  destruct (m s) as [a s1]. simpl in Hm. rewrite Hk. exact Hm.
Qed.

Lemma keeps_log (lvl : Level) (msg : string) : keeps (log lvl msg).
Proof. intros s. done. Qed.

Lemma keeps_Acquire (E : Env) (t st d : string) : keeps (Acquire E t st d).
Proof. intros s. done. Qed.

Lemma keeps_AcquireByState (E : Env) (st d : string) (n : list string) : keeps (AcquireByState E st d n).
Proof. intros s. done. Qed.

Lemma keeps_ReleaseOne (E : Env) (n d : string) : keeps (ReleaseOne E n d).
Proof. intros s. done. Qed.

Lemma keeps_UpdateOne (E : Env) (n st : string) (u : option UserData) : keeps (UpdateOne E n st u).
Proof. intros s. done. Qed.

Lemma keeps_ctxDone (E : Env) : keeps (ctxDone E).
Proof. intros s. done. Qed.

Lemma keeps_mapM_ {A} (f : A -> M unit) (l : list A) :
  (forall x, keeps (f x)) -> keeps (mapM_ f l).
Proof. intros Hf. induction l; simpl; [apply keeps_ret|]. apply keeps_bind; auto. Qed.

Lemma keeps_for_each_resource (ful : TypeToResources) (body : Resource -> M unit) :
  (forall r, keeps (body r)) -> keeps (for_each_resource ful body).
Proof. intros Hb. apply keeps_mapM_. intros kv. apply keeps_mapM_. exact Hb. Qed.

Ltac keeps_tac :=
  repeat first
    [ apply keeps_ret | apply keeps_log | apply keeps_Acquire | apply keeps_AcquireByState
    | apply keeps_ReleaseOne | apply keeps_UpdateOne | apply keeps_ctxDone
    | apply keeps_bind; [| intros [] ] | apply keeps_bind; [| intros ?]
    | apply keeps_mapM_; intros ? | apply keeps_for_each_resource; intros ?
    | match goal with |- keeps (match ?x with _ => _ end) => destruct x end ].

(** ** Releaser *)

Lemma release_names_spec (E : Env) (names : list string) (dest : string)
    (acc : list Err) (s : St) :
  let '(errs, s') := release_names E names dest acc s in
  trace s' = trace s ++ map (fun n => CReleaseOne n dest) names /\
  pending s' = pending s /\ fulfilled s' = fulfilled s /\ cleaned s' = cleaned s /\
  (errs = [] -> acc = [] /\
     forall i n, names !! i = Some n ->
       b_ReleaseOne E (trace s ++ map (fun n => CReleaseOne n dest) (take i names)) n dest = None).
Proof.
  revert acc s. induction names as [|x names IH]; intros acc s; simpl.
  - unfold ret. rewrite app_nil_r. split_and!; auto.
    intros ->. split; [done|]. intros i n Hn. rewrite lookup_nil in Hn. discriminate.
  - unfold mbind, ReleaseOne. destruct (b_ReleaseOne E (trace s) x dest) as [err|] eqn:Hx.
    + unfold mbind, log. simpl.
      specialize (IH (acc ++ [err]) (add_log (Error, "unable to release to state")
                                     (add_call (CReleaseOne x dest) s))).
      destruct (release_names _ _ _ _ _) as [errs s'].
      destruct IH as (T & P & F & C & Hz). simpl in T, P, F, C.
      rewrite T, <- (List.app_assoc (trace s) [CReleaseOne x dest]). split_and!; auto.
      intros Herrs. destruct (Hz Herrs) as [Hacc _]. destruct acc; discriminate.
    + specialize (IH acc (add_call (CReleaseOne x dest) s)).
      destruct (release_names _ _ _ _ _) as [errs s'].
      destruct IH as (T & P & F & C & Hz). unfold add_call in *. simpl in *.
      rewrite T, <- (List.app_assoc (trace s) [CReleaseOne x dest]). split_and!; auto.
      intros Herrs. destruct (Hz Herrs) as [Hacc Hall]. split; [done|].
      intros [|i] n Hn; simpl in Hn |- *.
      * injection Hn as <-. rewrite app_nil_r. exact Hx.
      * specialize (Hall i n Hn). rewrite <- (List.app_assoc (trace s) [CReleaseOne x dest]) in Hall. exact Hall.
Qed.

Lemma keeps_release_names (E : Env) (names : list string) (dest : string) (acc : list Err) : keeps (release_names E names dest acc).
Proof.
  revert acc. induction names as [|x names IH]; intros acc; simpl; keeps_tac; apply IH.
Qed.

Lemma keeps_freeOne (E : Env) (res : Resource) : keeps (freeOne E res).
Proof. unfold freeOne. keeps_tac; apply keeps_release_names. Qed.

Lemma freeAll_step_cleaned (E : Env) (req : requirements) (s : St) :
  cleaned (snd (freeAll_step E req s)) =
  cleaned s ++ match fst (freeOne E (resource req) s) with Some _ => [req] | None => [] end.
Proof.
  unfold freeAll_step, mbind. pose proof (keeps_freeOne E (resource req) s) as H.
  destruct (freeOne E (resource req) s) as [[e|] s1]; unfold queues in H; simpl in *;
    injection H as _ _ ->; [done | by rewrite app_nil_r].
Qed.

Lemma freeOne_release_ok (E : Env) (res : Resource) (s : St) :
  b_ReleaseOne E (trace s) (res_Name res) Free = None ->
  freeOne E res s =
  (match res_UserData res with
   | None => log Error "failed to extract leasedResources" ;; ret (Some (EMsg "UserData is empty"))
   | Some ud =>
       match ud_Extract E (Some ud) LeasedResources with
       | inl err => log Error "failed to extract leasedResources" ;; ret (Some err)
       | inr leasedResources =>
           let* allErrors := release_names E (default [] leasedResources) (res_Name res) [] in
           match allErrors with
           | [] => log Info "Resource has been freed" ;; ret None
           | _ => ret (Some (EMulti allErrors))
           end
       end
   end) (add_call (CReleaseOne (res_Name res) Free) s).
Proof. intros H. unfold freeOne, mbind at 1, ReleaseOne. rewrite H. reflexivity. Qed.

(** C1 (as the code has it): the Releaser re-enqueues the request onto
    [cleaned] exactly when [freeOne] returns an error, whatever the error:
    the primary's release to free failing, or, after it succeeded, the
    aggregate of failed releases of the leased resources to the state named
    after the primary; or, after it succeeded, the error for nil user-data
    or for a [leasedResources] entry that is missing or cannot be decoded. *)
Theorem freeAll_requeues_on_any_error (E : Env) (req : requirements) (s : St) :
  cleaned (snd (freeAll_step E req s)) =
    cleaned s ++ match fst (freeOne E (resource req) s) with Some _ => [req] | None => [] end /\
  (b_ReleaseOne E (trace s) (res_Name (resource req)) Free <> None ->
     fst (freeOne E (resource req) s) = b_ReleaseOne E (trace s) (res_Name (resource req)) Free) /\
  (forall ud names i n,
     b_ReleaseOne E (trace s) (res_Name (resource req)) Free = None ->
     res_UserData (resource req) = Some ud ->
     ud_Extract E (Some ud) LeasedResources = inr names ->
     default [] names !! i = Some n ->
     b_ReleaseOne E (trace s ++ CReleaseOne (res_Name (resource req)) Free ::
                       map (fun x => CReleaseOne x (res_Name (resource req)))
                           (take i (default [] names)))
       n (res_Name (resource req)) <> None ->
     exists errs, fst (freeOne E (resource req) s) = Some (EMulti errs)) /\
  (b_ReleaseOne E (trace s) (res_Name (resource req)) Free = None ->
     res_UserData (resource req) = None ->
     fst (freeOne E (resource req) s) = Some (EMsg "UserData is empty")) /\
  (forall ud err,
     b_ReleaseOne E (trace s) (res_Name (resource req)) Free = None ->
     res_UserData (resource req) = Some ud ->
     ud_Extract E (Some ud) LeasedResources = inl err ->
     fst (freeOne E (resource req) s) = Some err).
Proof.
  split; [apply freeAll_step_cleaned|]. split; [|split; [|split]].
  - intros Hne. unfold freeOne, mbind at 1, ReleaseOne.
    destruct (b_ReleaseOne E (trace s) _ Free) as [err|]; [done|congruence].
  - intros ud names i n Hrel Hud Hext Hi Hfail.
    rewrite (freeOne_release_ok _ _ _ Hrel), Hud, Hext.
    pose proof (release_names_spec E (default [] names) (res_Name (resource req)) []
                  (add_call (CReleaseOne (res_Name (resource req)) Free) s)) as Hs.
    unfold mbind at 1.
    destruct (release_names _ _ _ _ _) as [errs s'].
    destruct Hs as (_ & _ & _ & _ & Hz).
    destruct errs as [|e0 errs].
    + exfalso. destruct (Hz eq_refl) as [_ Hall]. apply Hfail.
      specialize (Hall i n Hi). unfold add_call in Hall. simpl in Hall.
      rewrite <- List.app_assoc in Hall. exact Hall.
    + eexists. reflexivity.
  - intros Hrel Hud. rewrite (freeOne_release_ok _ _ _ Hrel), Hud. reflexivity.
  - intros ud err Hrel Hud Hext. rewrite (freeOne_release_ok _ _ _ Hrel), Hud, Hext. reflexivity.
Qed.

(** C10: for a request whose primary has nil user-data, [freeOne] first
    releases the primary to free (the only broker call it makes) and then,
    when that release succeeded, returns the "UserData is empty" error
    without extracting [leasedResources]; [freeAll] re-enqueues the request
    onto [cleaned] although the primary is already free. *)
Theorem freeOne_nil_userdata_requeued (E : Env) (req : requirements) (s : St) :
  res_UserData (resource req) = None ->
  trace (snd (freeAll_step E req s)) = trace s ++ [CReleaseOne (res_Name (resource req)) Free] /\
  cleaned (snd (freeAll_step E req s)) = cleaned s ++ [req] /\
  (b_ReleaseOne E (trace s) (res_Name (resource req)) Free = None ->
   fst (freeOne E (resource req) s) = Some (EMsg "UserData is empty")).
Proof.
  intros Hud. unfold freeAll_step, freeOne, mbind, ReleaseOne. rewrite Hud.
  destruct (b_ReleaseOne E (trace s) _ Free); simpl; split_and!; done.
Qed.

(** ** Recycler *)

Lemma mbind_run {A B} (m : M A) (k : A -> M B) (s : St) :
  mbind m k s = k (fst (m s)) (snd (m s)).
Proof. unfold mbind. by destruct (m s). Qed.

Lemma recycleOne_reclaim_some (E : Env) (res : Resource) (s : St) (cfg : ResourcesConfig)
    (names : list string) :
  storage_GetConfig E (res_Type res) = inr cfg ->
  ud_Extract E (res_UserData res) LeasedResources = inr (Some names) ->
  trace (snd (recycleOne E res s)) =
    trace s ++ CAcquireByState (res_Name res) Leased names ::
    map (fun r => CReleaseOne (res_Name r) Dirty)
        (fst (b_AcquireByState E (trace s) (res_Name res) Leased names)) ++
    [CUpdateOne (res_Name res) (res_State res) (Some {[LeasedResources := ""]})] /\
  fst (recycleOne E res s) =
    inr (mkRequirements (with_UserData res (delete LeasedResources <$> res_UserData res))
                        (cfg_Needs cfg) ∅) /\
  queues (snd (recycleOne E res s)) = queues s.
Proof.
  intros Hcfg Hext. unfold recycleOne. rewrite Hcfg, Hext.
  rewrite mbind_run. simpl. rewrite mbind_run. unfold ret at 1. simpl.
  rewrite mbind_run. unfold AcquireByState at 1 2. simpl.
  destruct (b_AcquireByState E _ _ _ _) as [rs err] eqn:Hab. simpl.
  rewrite mbind_run.
  match goal with |- context [snd (?m ?s2)] =>
    match m with match err with _ => _ end => 
      assert (Hs2 : trace (snd (m s2)) = trace s ++ [CAcquireByState (res_Name res) Leased names]
                    /\ queues (snd (m s2)) = queues s)
        by (destruct err; split; reflexivity);
      set (s3 := snd (m s2)) in * end end.
  rewrite mbind_run.
  pose proof (emits_mapM_ _ (fun r => [CReleaseOne (res_Name r) Dirty]) rs
    (fun r => emits_release_logged E (res_Name r) Dirty _ (emits_log Warning "could not release resource"))
    s3) as (T & P & F & C).
  set (s4 := snd (mapM_ _ rs s3)) in *.
  rewrite mbind_run. unfold UpdateOne at 1 2. simpl.
  destruct Hs2 as [T3 Q3]. unfold queues in *.
  destruct (b_UpdateOne E _ _ _ _); simpl;
    rewrite T, T3, P, F, C, concat_map_singleton, <- !List.app_assoc; simpl;
    split_and!; congruence.
Qed.

Lemma recycleOne_no_reclaim (E : Env) (res : Resource) (s : St) (cfg : ResourcesConfig) :
  storage_GetConfig E (res_Type res) = inr cfg ->
  ((exists k, ud_Extract E (res_UserData res) LeasedResources = inl (EUserDataNotFound k)) \/
   ud_Extract E (res_UserData res) LeasedResources = inr None) ->
  trace (snd (recycleOne E res s)) = trace s /\
  fst (recycleOne E res s) = inr (mkRequirements res (cfg_Needs cfg) ∅) /\
  queues (snd (recycleOne E res s)) = queues s.
Proof.
  intros Hcfg [[k Hext]|Hext]; unfold recycleOne; rewrite Hcfg, Hext; done.
Qed.

Lemma recycleOne_failure (E : Env) (res : Resource) (s : St) (e : Err) :
  (storage_GetConfig E (res_Type res) = inl e \/
   exists cfg, storage_GetConfig E (res_Type res) = inr cfg /\
     ud_Extract E (res_UserData res) LeasedResources = inl e /\
     forall k, e <> EUserDataNotFound k) ->
  trace (snd (recycleOne E res s)) = trace s /\
  fst (recycleOne E res s) = inl e /\
  queues (snd (recycleOne E res s)) = queues s.
Proof.
  intros [Hcfg | (cfg & Hcfg & Hext & Hnf)]; unfold recycleOne; rewrite Hcfg; [done|].
  rewrite Hext. destruct e; try done. exfalso. by apply (Hnf key).
Qed.

Lemma recycleOne_cases (E : Env) (res : Resource) :
  (exists e, storage_GetConfig E (res_Type res) = inl e) \/
  exists cfg, storage_GetConfig E (res_Type res) = inr cfg /\
   ((exists k, ud_Extract E (res_UserData res) LeasedResources = inl (EUserDataNotFound k)) \/
    ud_Extract E (res_UserData res) LeasedResources = inr None \/
    (exists names, ud_Extract E (res_UserData res) LeasedResources = inr (Some names)) \/
    (exists e, ud_Extract E (res_UserData res) LeasedResources = inl e /\
               forall k, e <> EUserDataNotFound k)).
Proof.
  destruct (storage_GetConfig E (res_Type res)) as [e|cfg]; [left; eauto|right; exists cfg].
  split; [done|].
  destruct (ud_Extract E (res_UserData res) LeasedResources) as [e|[names|]].
  - destruct e as [k| | |];
      [left; eauto|right; right; right; eexists; split; [reflexivity|]; intros k' Hk'; discriminate ..].
  - right; right; left. eauto.
  - right; left. done.
Qed.

Lemma recycleOne_error_cond (E : Env) (res : Resource) (s : St) (e : Err) :
  fst (recycleOne E res s) = inl e ->
  storage_GetConfig E (res_Type res) = inl e \/
  exists cfg, storage_GetConfig E (res_Type res) = inr cfg /\
    ud_Extract E (res_UserData res) LeasedResources = inl e /\
    forall k, e <> EUserDataNotFound k.
Proof.
  intros He.
  destruct (recycleOne_cases E res) as [[e' Hc]|(cfg & Hc & [Hx|[Hx|[[names Hx]|(e' & Hx & Hn)]]])].
  - destruct (recycleOne_failure E res s e' (or_introl Hc)) as (_ & Hf & _). left. congruence.
  - destruct (recycleOne_no_reclaim E res s cfg Hc (or_introl Hx)) as (_ & Hf & _). congruence.
  - destruct (recycleOne_no_reclaim E res s cfg Hc (or_intror Hx)) as (_ & Hf & _). congruence.
  - destruct (recycleOne_reclaim_some E res s cfg names Hc Hx) as (_ & Hf & _). congruence.
  - destruct (recycleOne_failure E res s e' (or_intror (ex_intro _ cfg (conj Hc (conj Hx Hn)))))
      as (_ & Hf & _).
    assert (e = e') by congruence. subst e'. right. eauto.
Qed.

(** C6: once [Acquire] returned a primary, [recycleOne] returns an error only
    when the config lookup for the primary's type fails or decoding
    [leasedResources] fails with an error other than not-found; then the
    Recycler releases the primary to dirty and pushes nothing.  Otherwise a
    request (the primary, the config's Needs, an empty fulfillment) is
    created and pushed onto [pending], whatever the broker answers to
    [AcquireByState], [ReleaseOne] and [UpdateOne] (those are only logged). *)
Theorem recycle_error_cases_and_push (E : Env) (r : string) (s : St) (res : Resource) :
  b_Acquire E (trace s) r Dirty Cleaning = inr res ->
  let s1 := add_call (CAcquire r Dirty Cleaning) s in
  (forall e, fst (recycleOne E res s1) = inl e ->
     (storage_GetConfig E (res_Type res) = inl e \/
      exists cfg, storage_GetConfig E (res_Type res) = inr cfg /\
        ud_Extract E (res_UserData res) LeasedResources = inl e /\
        forall k, e <> EUserDataNotFound k) /\
     trace (snd (recycle_type E r s)) =
       trace s ++ [CAcquire r Dirty Cleaning; CReleaseOne (res_Name res) Dirty] /\
     queues (snd (recycle_type E r s)) = queues s) /\
  (forall req, fst (recycleOne E res s1) = inr req ->
     pending (snd (recycle_type E r s)) = pending s ++ [req] /\
     fulfilled (snd (recycle_type E r s)) = fulfilled s /\
     cleaned (snd (recycle_type E r s)) = cleaned s) /\
  (forall cfg, storage_GetConfig E (res_Type res) = inr cfg ->
     (forall e, ud_Extract E (res_UserData res) LeasedResources = inl e ->
        exists k, e = EUserDataNotFound k) ->
     exists req, fst (recycleOne E res s1) = inr req /\
       res_Name (resource req) = res_Name res /\ needs req = cfg_Needs cfg /\
       fulfillment req = ∅).
Proof.
  intros Hacq s1.
  assert (Hstep : recycle_type E r s =
    (match fst (recycleOne E res s1) with
     | inl _ =>
         log Error "unable to recycle resource" ;;
         let* e := ReleaseOne E (res_Name res) Dirty in
         match e with Some _ => log Error "Unable to release resources" | None => ret tt end
     | inr req => push_pending req
     end) (snd (recycleOne E res s1))).
  { unfold recycle_type. rewrite mbind_run. unfold Acquire at 1 2. simpl. rewrite Hacq.
    simpl. rewrite mbind_run. reflexivity. }
  split_and!.
  - intros e He. pose proof (recycleOne_error_cond E res s1 e He) as Hcond.
    destruct (recycleOne_failure E res s1 e Hcond) as (T & _ & Q).
    rewrite Hstep, He. split; [done|].
    unfold mbind, log, ReleaseOne, queues in *. simpl.
    destruct (b_ReleaseOne _ _ _ _); simpl; rewrite T; simpl;
      rewrite <- List.app_assoc; split; try done; unfold s1, add_call in Q; simpl in Q; congruence.
  - intros req Hr.
    destruct (recycleOne_cases E res) as [[e' Hc]|(cfg & Hc & [Hx|[Hx|[[names Hx]|(e' & Hx & Hn)]]])];
    [ destruct (recycleOne_failure E res s1 e' (or_introl Hc)) as (_ & Hf & Q)
    | destruct (recycleOne_no_reclaim E res s1 cfg Hc (or_introl Hx)) as (_ & Hf & Q)
    | destruct (recycleOne_no_reclaim E res s1 cfg Hc (or_intror Hx)) as (_ & Hf & Q)
    | destruct (recycleOne_reclaim_some E res s1 cfg names Hc Hx) as (_ & Hf & Q)
    | destruct (recycleOne_failure E res s1 e' (or_intror (ex_intro _ cfg (conj Hc (conj Hx Hn)))))
        as (_ & Hf & Q) ]; try congruence;
    rewrite Hstep, Hr; unfold push_pending, queues, s1, add_call in *; simpl in *;
    injection Q as -> -> ->; done.
  - intros cfg Hc Hnf.
    destruct (recycleOne_cases E res) as [[e' Hc']|(cfg' & Hc' & [Hx|[Hx|[[names Hx]|(e' & Hx & Hn)]]])];
      rewrite Hc in Hc'; try discriminate; injection Hc' as <-.
    + destruct (recycleOne_no_reclaim E res s1 cfg Hc (or_introl Hx)) as (_ & Hf & _). eauto.
    + destruct (recycleOne_no_reclaim E res s1 cfg Hc (or_intror Hx)) as (_ & Hf & _). eauto.
    + destruct (recycleOne_reclaim_some E res s1 cfg names Hc Hx) as (_ & Hf & _). eauto.
    + destruct (Hnf e' Hx) as [k ->]. exfalso. by apply (Hn k).
Qed.

(** ** Fulfiller *)

(** Every broker call [m] makes satisfies [P]. *)
Definition calls_ok {A} (P : Call -> Prop) (m : M A) : Prop :=
  forall s, exists cs, trace (snd (m s)) = trace s ++ cs /\ Forall P cs.

Lemma calls_ok_ret {A} P (a : A) : calls_ok P (ret a).
Proof. intros s. exists []. rewrite app_nil_r. auto. Qed.

Lemma calls_ok_bind {A B} P (m : M A) (k : A -> M B) :
  calls_ok P m -> (forall a, calls_ok P (k a)) -> calls_ok P (mbind m k).
Proof.
  intros Hm Hk s. rewrite mbind_run.
  destruct (Hm s) as (cs1 & T1 & F1). destruct (Hk (fst (m s)) (snd (m s))) as (cs2 & T2 & F2).
  exists (cs1 ++ cs2). rewrite T2, T1, List.app_assoc. split; [done|]. by apply Forall_app.
Qed.

Lemma calls_ok_log {P} (lvl : Level) (msg : string) : calls_ok P (log lvl msg).
Proof. intros s. exists []. rewrite app_nil_r. auto. Qed.

Lemma calls_ok_ctxDone {P} (E : Env) : calls_ok P (ctxDone E).
Proof. intros s. exists []. rewrite app_nil_r. auto. Qed.

Lemma calls_ok_push_fulfilled {P} (r : requirements) : calls_ok P (push_fulfilled r).
Proof. intros s. exists []. rewrite app_nil_r. auto. Qed.

Lemma calls_ok_Acquire (P : Call -> Prop) (E : Env) (t st d : string) :
  P (CAcquire t st d) -> calls_ok P (Acquire E t st d).
Proof. intros HP s. exists [CAcquire t st d]. auto. Qed.

Lemma calls_ok_UpdateOne (P : Call -> Prop) (E : Env) (n st : string) (u : option UserData) :
  P (CUpdateOne n st u) -> calls_ok P (UpdateOne E n st u).
Proof. intros HP s. exists [CUpdateOne n st u]. auto. Qed.

Lemma calls_ok_mapM_ {A} P (f : A -> M unit) (l : list A) :
  (forall x, calls_ok P (f x)) -> calls_ok P (mapM_ f l).
Proof.
  intros Hf. induction l; simpl; [apply calls_ok_ret|]. apply calls_ok_bind; auto.
Qed.

(** A call that is not a [ReleaseOne]. *)
Definition not_release (c : Call) : Prop :=
  match c with CReleaseOne _ _ => False | _ => True end.

Lemma calls_ok_push_pending {P} (r : requirements) : calls_ok P (push_pending r).
Proof. intros s. exists []. rewrite app_nil_r. auto. Qed.

Lemma calls_ok_AcquireByState (P : Call -> Prop) (E : Env) (st d : string) (n : list string) :
  P (CAcquireByState st d n) -> calls_ok P (AcquireByState E st d n).
Proof. intros HP s. exists [CAcquireByState st d n]. auto. Qed.

Lemma calls_ok_ReleaseOne (P : Call -> Prop) (E : Env) (n d : string) :
  P (CReleaseOne n d) -> calls_ok P (ReleaseOne E n d).
Proof. intros HP s. exists [CReleaseOne n d]. auto. Qed.

Ltac calls_tac :=
  repeat first
    [ apply calls_ok_ret | apply calls_ok_log | apply calls_ok_ctxDone
    | apply calls_ok_push_fulfilled | apply calls_ok_push_pending
    | apply calls_ok_AcquireByState; first [exact I | reflexivity] | apply calls_ok_ReleaseOne; first [exact I | reflexivity]
    | apply calls_ok_Acquire; first [exact I | reflexivity] | apply calls_ok_UpdateOne; first [exact I | reflexivity]
    | apply calls_ok_bind; [| intros [] ] | apply calls_ok_bind; [| intros ?]
    | apply calls_ok_mapM_; intros ?
    | match goal with |- calls_ok _ (match ?x with _ => _ end) => destruct x end ].

Lemma fulfill_type_no_release (E : Env) (fuel : nat) (rType : string) (n : Z) (req : requirements) :
  calls_ok not_release (fulfill_type E fuel rType n req) /\ keeps (fulfill_type E fuel rType n req).
Proof.
  revert n req. induction fuel as [|fuel IH]; intros n req; simpl.
  - split; [apply calls_ok_ret | apply keeps_ret].
  - destruct (Z.ltb 0 n); [|split; [apply calls_ok_ret | apply keeps_ret]].
    unfold updateResources. split.
    + calls_tac; apply IH.
    + keeps_tac; apply IH.
Qed.

Lemma fulfill_types_no_release (E : Env) (fuel : nat) (l : list (string * Z)) (req : requirements) :
  calls_ok not_release (fulfill_types E fuel l req) /\ keeps (fulfill_types E fuel l req).
Proof.
  revert req. induction l as [|[t n] l IH]; intros req; simpl.
  - split; [apply calls_ok_ret | apply keeps_ret].
  - split.
    + apply calls_ok_bind; [apply fulfill_type_no_release|]. intros [o r'].
      destruct o; [apply calls_ok_ret | apply IH | apply calls_ok_ret].
    + apply keeps_bind; [apply fulfill_type_no_release|]. intros [o r'].
      destruct o; [apply keeps_ret | apply IH | apply keeps_ret].
Qed.

Lemma fulfillOne_no_release (E : Env) (fuel : nat) (req : requirements) :
  calls_ok not_release (fulfillOne E fuel req) /\ keeps (fulfillOne E fuel req).
Proof.
  unfold fulfillOne, fulfillOne_finish. split.
  - apply calls_ok_bind; [apply fulfill_types_no_release|]. intros [o r'].
    calls_tac.
  - apply keeps_bind; [apply fulfill_types_no_release|]. intros [o r'].
    keeps_tac.
Qed.

Lemma emits_release_then (E : Env) (name dest : string) (onerr after : M unit) :
  emits onerr [] -> emits after [] ->
  emits (let* e := ReleaseOne E name dest in
         (match e with Some _ => onerr | None => ret tt end) ;; after)
        [CReleaseOne name dest].
Proof.
  intros Hon Haf s. rewrite mbind_run. unfold ReleaseOne. simpl.
  pose proof (emits_bind _ _ _ _ Hon Haf) as H1.
  pose proof (emits_bind _ _ _ _ emits_ret Haf) as H2.
  destruct (b_ReleaseOne _ _ _ _);
    [destruct (H1 (add_call (CReleaseOne name dest) s)) as (T & P & F & C)
    |destruct (H2 (add_call (CReleaseOne name dest) s)) as (T & P & F & C)];
    rewrite T, P, F, C; unfold add_call; simpl; rewrite app_nil_r; auto.
Qed.

(** C5: when [fulfillOne] is cancelled (it returns the context's error),
    [fulfillAll] releases every resource recorded in the request's
    fulfillment, as [fulfillOne] left it, back to free, and pushes nothing
    (the request is dropped, never pushed onto [fulfilled]).  Those are the
    only [ReleaseOne] calls of the whole step: the Fulfiller does not
    release the primary. *)
Theorem fulfillAll_cancel_releases_secondaries (E : Env) (fuel : nat) (req req' : requirements)
    (s s1 : St) :
  fulfillOne E fuel req s = ((Some (Some ECanceled), req'), s1) ->
  exists cs,
    trace (snd (fulfillAll_step E fuel req s)) =
      trace s ++ cs ++ map (fun r => CReleaseOne (res_Name r) Free) (all_resources (fulfillment req')) /\
    Forall not_release cs /\
    queues (snd (fulfillAll_step E fuel req s)) = queues s.
Proof.
  intros Hf.
  destruct (fulfillOne_no_release E fuel req) as [Hc Hk].
  destruct (Hc s) as (cs & T1 & F1). specialize (Hk s). rewrite Hf in T1, Hk. simpl in T1, Hk.
  exists cs.
  assert (Hstep : fulfillAll_step E fuel req s =
    for_each_resource (fulfillment req') (fun res =>
        let* e := ReleaseOne E (res_Name res) Free in
        (match e with Some _ => log Error "failed to release resource" | None => ret tt end) ;;
        log Info "Released resource") s1)
    by (unfold fulfillAll_step; rewrite mbind_run, Hf; reflexivity).
  rewrite Hstep.
  destruct (emits_for_each_resource (fulfillment req') _ (fun r => [CReleaseOne (res_Name r) Free])
    (fun r => emits_release_then E (res_Name r) Free _ _
        (emits_log Error "failed to release resource") (emits_log Info "Released resource")) s1)
    as (T & P & F & C).
  rewrite T, T1, concat_map_singleton, <- List.app_assoc. split_and!; [done|done|].
  unfold queues in *. rewrite P, F, C. done.
Qed.

(** C9: if the acquisition loops of [fulfillOne] complete without
    cancellation but [isFulFilled] is false for the resulting request,
    [fulfillOne] returns nil and makes no further broker call, in particular
    no [UpdateOne] persisting [leasedResources]. *)
Theorem fulfillOne_unfulfilled_returns_nil (E : Env) (fuel : nat) (req req' : requirements)
    (s s' : St) :
  fulfill_types E fuel (map_to_list (needs req)) req s = ((LCompleted, req'), s') ->
  isFulFilled req' = false ->
  fulfillOne E fuel req s = ((Some None, req'), s').
Proof.
  intros Hloop Hnf. unfold fulfillOne. rewrite mbind_run, Hloop. simpl.
  unfold fulfillOne_finish. rewrite Hnf. reflexivity.
Qed.

(** ** Lease reclaim *)

(** C3 (as the code has it), once the config lookup for the primary's type
    succeeded: with no [leasedResources] key (or nil user-data) lease
    reclaim is skipped; with the key present, the value decoding to a
    non-nil list of names triggers [AcquireByState(primary, leased, names)],
    a release to dirty of each returned resource, the deletion of the key
    from the in-memory user-data and an [UpdateOne] of the primary clearing
    it; a value decoding to a nil list skips reclaim; a value failing to
    decode makes [recycleOne] return that error with no broker call. *)
Theorem recycleOne_lease_reclaim (E : Env) (res : Resource) (s : St) (cfg : ResourcesConfig) :
  storage_GetConfig E (res_Type res) = inr cfg ->
  ((forall ud, res_UserData res = Some ud -> ud !! LeasedResources = None) ->
     trace (snd (recycleOne E res s)) = trace s /\
     fst (recycleOne E res s) = inr (mkRequirements res (cfg_Needs cfg) ∅)) /\
  (forall ud content, res_UserData res = Some ud -> ud !! LeasedResources = Some content ->
     (forall names, decode_names E content = inr (Some names) ->
        trace (snd (recycleOne E res s)) =
          trace s ++ CAcquireByState (res_Name res) Leased names ::
          map (fun r => CReleaseOne (res_Name r) Dirty)
              (fst (b_AcquireByState E (trace s) (res_Name res) Leased names)) ++
          [CUpdateOne (res_Name res) (res_State res) (Some {[LeasedResources := ""]})] /\
        fst (recycleOne E res s) =
          inr (mkRequirements (with_UserData res (Some (delete LeasedResources ud)))
                              (cfg_Needs cfg) ∅)) /\
     (decode_names E content = inr None ->
        trace (snd (recycleOne E res s)) = trace s /\
        fst (recycleOne E res s) = inr (mkRequirements res (cfg_Needs cfg) ∅)) /\
     (forall e, decode_names E content = inl e -> (forall k, e <> EUserDataNotFound k) ->
        trace (snd (recycleOne E res s)) = trace s /\ fst (recycleOne E res s) = inl e)).
Proof.
  intros Hcfg. split.
  - intros Hnokey.
    assert (Hx : ud_Extract E (res_UserData res) LeasedResources =
                 inl (EUserDataNotFound LeasedResources)).
    { unfold ud_Extract. destruct (res_UserData res) as [ud|] eqn:Hu; [|done].
      by rewrite (Hnokey ud eq_refl). }
    destruct (recycleOne_no_reclaim E res s cfg Hcfg (or_introl (ex_intro _ _ Hx)))
      as (T & R & _). done.
  - intros ud content Hud Hc.
    assert (Hx : ud_Extract E (res_UserData res) LeasedResources = decode_names E content)
      by (unfold ud_Extract; by rewrite Hud, Hc).
    split_and!.
    + intros names Hd. rewrite Hd in Hx.
      destruct (recycleOne_reclaim_some E res s cfg names Hcfg Hx) as (T & R & _).
      rewrite Hud in R. done.
    + intros Hd. rewrite Hd in Hx.
      destruct (recycleOne_no_reclaim E res s cfg Hcfg (or_intror Hx)) as (T & R & _). done.
    + intros e Hd Hn. rewrite Hd in Hx.
      destruct (recycleOne_failure E res s e (or_intror (ex_intro _ cfg (conj Hcfg (conj Hx Hn)))))
        as (T & R & _). done.
Qed.

(** C3, as stated, fails: with the [leasedResources] key present but a value
    that does not decode, [recycleOne] makes no [AcquireByState] call. *)
Lemma recycleOne_key_present_no_acquire :
  ~ (forall (E : Env) (res : Resource) (s : St) (ud : UserData) (content : string),
       res_UserData res = Some ud -> ud !! LeasedResources = Some content ->
       exists names, CAcquireByState (res_Name res) Leased names ∈ trace (snd (recycleOne E res s))).
Proof.
  intros H.
  set (ud := ({[LeasedResources := "b1 b2"]} : UserData)).
  destruct (H (sample_env (fun _ _ => false) (fun _ => false) (fun _ => inr sample_cfg))
              (mkResource "a1" "A" Cleaning (Some ud)) st0 ud "b1 b2") as [names Hin];
    [reflexivity | vm_compute; reflexivity |].
  vm_compute in Hin. by apply not_elem_of_nil in Hin.
Qed.

(** ** Recycler iteration *)

(** A call other than [Acquire]. *)
Definition not_acquire (c : Call) : Prop := is_acquire c = false.

Lemma recycle_type_calls (E : Env) (r : string) (s : St) :
  exists cs, trace (snd (recycle_type E r s)) = trace s ++ CAcquire r Dirty Cleaning :: cs /\
             Forall not_acquire cs.
Proof.
  assert (Hrec : forall res, calls_ok not_acquire
    (let* rq := recycleOne E res in
     match rq with
     | inl _ =>
         log Error "unable to recycle resource" ;;
         let* e := ReleaseOne E (res_Name res) Dirty in
         match e with Some _ => log Error "Unable to release resources" | None => ret tt end
     | inr req => push_pending req
     end)).
  { intros res. unfold recycleOne. calls_tac. }
  unfold recycle_type. rewrite mbind_run. unfold Acquire at 1 2. simpl.
  destruct (b_Acquire E (trace s) r Dirty Cleaning) as [e|res].
  - exists []. unfold log. simpl. auto.
  - destruct (Hrec res (add_call (CAcquire r Dirty Cleaning) s)) as (cs & T & F).
    exists cs. rewrite T. unfold add_call. simpl. rewrite <- List.app_assoc. auto.
Qed.

Lemma filter_not_acquire (cs : list Call) : Forall not_acquire cs -> List.filter is_acquire cs = [].
Proof. induction 1 as [|c cs Hc _ IH]; simpl; [done|]. unfold not_acquire in Hc. by rewrite Hc. Qed.

Lemma mapM_recycle_type_calls (E : Env) (types : list string) (s : St) :
  exists cs, trace (snd (mapM_ (recycle_type E) types s)) = trace s ++ cs /\
             List.filter is_acquire cs = map (fun r => CAcquire r Dirty Cleaning) types.
Proof.
  revert s. induction types as [|r types IH]; intros s; simpl.
  - exists []. unfold ret. simpl. rewrite app_nil_r. auto.
  - rewrite mbind_run. destruct (recycle_type_calls E r s) as (cs1 & T1 & F1).
    destruct (IH (snd (recycle_type E r s))) as (cs2 & T2 & F2).
    exists ((CAcquire r Dirty Cleaning :: cs1) ++ cs2). rewrite T2, T1, <- List.app_assoc.
    split; [done|]. rewrite List.filter_app. simpl. rewrite filter_not_acquire by done. simpl.
    by rewrite F2.
Qed.

(** C7 (as the code has it): in each Recycler iteration, for every config of
    the snapshot, in order, [Acquire] is called with that config's [Name]
    as the type argument, from dirty to cleaning (the code uses a config's
    name as its primary resource type); a failed [Acquire] is logged at
    debug level and nothing else is done for that config. *)
Theorem recycleAll_acquire_per_config (E : Env) (s : St) (configs : list ResourcesConfig) :
  storage_GetConfigs E = inr configs ->
  (exists cs, trace (snd (recycleAll_iter E s)) = trace s ++ cs /\
     List.filter is_acquire cs = map (fun c => CAcquire (cfg_Name c) Dirty Cleaning) configs) /\
  (forall (r : string) (s' : St) (e : Err), b_Acquire E (trace s') r Dirty Cleaning = inl e ->
     recycle_type E r s' = (tt, add_log (Debug, "boskos acquire failed!") (add_call (CAcquire r Dirty Cleaning) s'))).
Proof.
  intros Hc. split.
  - unfold recycleAll_iter. rewrite Hc.
    destruct (mapM_recycle_type_calls E (map cfg_Name configs) s) as (cs & T & F).
    exists cs. split; [done|]. rewrite F, map_map. done.
  - intros r s' e He. unfold recycle_type. rewrite mbind_run. unfold Acquire at 1 2. simpl.
    rewrite He. reflexivity.
Qed.

(** C7, as stated, fails: for a config named [cfg] whose primary type is
    [A], the Recycler calls [Acquire("cfg", dirty, cleaning)], not
    [Acquire("A", dirty, cleaning)]. *)
Lemma recycleAll_acquires_name_not_type :
  ~ (forall (E : Env) (s : St) (configs : list ResourcesConfig),
       storage_GetConfigs E = inr configs ->
       List.filter is_acquire (trace (snd (recycleAll_iter E s))) =
       List.filter is_acquire (trace s) ++ map (fun c => CAcquire (cfg_Type c) Dirty Cleaning) configs).
Proof.
  intros H.
  specialize (H (sample_env (fun _ _ => false) (fun _ => false) (fun _ => inr sample_cfg))
                st0 [sample_cfg] eq_refl).
  vm_compute in H. discriminate H.
Qed.

(** ** Config validation *)

Definition sum_key (k : string) (l : list (string * Z)) : Z :=
  fold_right (fun kv acc => (if String.eqb kv.1 k then kv.2 else 0) + acc) 0 l.

Lemma sum_key_absent (k : string) (l : list (string * Z)) :
  existsb (fun kv => String.eqb kv.1 k) l = false -> sum_key k l = 0.
Proof.
  induction l as [|kv l IH]; simpl; [done|]. intros H.
  apply orb_false_iff in H as [H1 H2]. rewrite H1, IH by done. lia.
Qed.

(** Adding in [int] step by step is adding in Z and wrapping once. *)
Lemma int64_wrap_add_l (a b : Z) : int64_wrap (int64_wrap a + b) = int64_wrap (a + b).
Proof.
  unfold int64_wrap.
  replace ((a + 2^63) mod 2^64 - 2^63 + b + 2^63) with ((a + 2^63) mod 2^64 + b) by ring.
  rewrite Zplus_mod_idemp_l. do 2 f_equal. ring.
Qed.

Lemma int64_wrap_small (z : Z) : -2^63 <= z < 2^63 -> int64_wrap z = z.
Proof. intros Hz. unfold int64_wrap. rewrite Z.mod_small; lia. Qed.

Lemma fold_needs_lookup (l : list (string * Z)) (rn : gmap string Z) (k : string) :
  fold_left (fun acc kv => <[kv.1 := int64_wrap (default 0 (acc !! kv.1) + kv.2)]> acc) l rn !! k =
  if existsb (fun kv => String.eqb kv.1 k) l
  then Some (int64_wrap (default 0 (rn !! k) + sum_key k l)) else rn !! k.
Proof.
  revert rn. induction l as [|kv l IH]; intros rn; simpl; [done|].
  rewrite IH. destruct (String.eqb_spec kv.1 k) as [<-|Hne]; simpl.
  - rewrite lookup_insert_eq. simpl.
    destruct (existsb _ l) eqn:Hx.
    + rewrite int64_wrap_add_l. do 2 f_equal. lia.
    + rewrite sum_key_absent by done. do 2 f_equal. lia.
  - rewrite lookup_insert_ne by done. destruct (existsb _ l); [do 2 f_equal; lia|done].
Qed.

Lemma existsb_key_in (k : string) (l : list (string * Z)) :
  existsb (fun kv => String.eqb kv.1 k) l = true <-> exists v, (k, v) ∈ l.
Proof.
  rewrite existsb_exists. split.
  - intros ([k' v] & Hin & Heq). apply String.eqb_eq in Heq. simpl in Heq. subst.
    exists v. by apply list_elem_of_In.
  - intros [v Hin]. exists (k, v). split; [by apply list_elem_of_In|]. apply String.eqb_refl.
Qed.

Lemma sum_key_nodup (k : string) (v : Z) (l : list (string * Z)) :
  NoDup l.*1 -> (k, v) ∈ l -> sum_key k l = v.
Proof.
  induction l as [|[k' v'] l IH]; simpl; intros Hnd Hin; [by apply elem_of_nil in Hin|].
  apply NoDup_cons in Hnd as [Hnotin Hnd].
  apply elem_of_cons in Hin as [Heq|Hin].
  - injection Heq as <- <-. rewrite String.eqb_refl. simpl.
    rewrite sum_key_absent; [lia|].
    destruct (existsb _ l) eqn:Hx; [|done].
    apply existsb_key_in in Hx as [w Hw]. exfalso. apply Hnotin.
    apply list_elem_of_fmap. by exists (k, w).
  - destruct (String.eqb_spec k' k) as [->|Hne]; simpl.
    + exfalso. apply Hnotin. apply list_elem_of_fmap. by exists (k, v).
    + rewrite IH by done. lia.
Qed.

(** [for k, v := range c { resourcesNeeds[k] += v }] adds [c]'s entry for
    each key. *)
Lemma add_needs_lookup (c : ResourceNeeds) (rn : gmap string Z) (k : string) :
  add_needs c rn !! k =
  match c !! k with Some v => Some (int64_wrap (default 0 (rn !! k) + v)) | None => rn !! k end.
Proof.
  unfold add_needs. rewrite fold_needs_lookup.
  destruct (c !! k) as [v|] eqn:Hc.
  - assert (Hin : (k, v) ∈ map_to_list c) by by apply elem_of_map_to_list.
    assert (Hx : existsb (fun kv => String.eqb kv.1 k) (map_to_list c) = true)
      by (apply existsb_key_in; eauto).
    rewrite Hx, (sum_key_nodup k v) by (done || apply NoDup_fst_map_to_list). done.
  - destruct (existsb _ (map_to_list c)) eqn:Hx; [|done].
    apply existsb_key_in in Hx as [v Hv]. apply elem_of_map_to_list in Hv. congruence.
Qed.

Lemma cfg_lookup_Some (configs : list ResourcesConfig) (n : string) (c : ResourcesConfig) :
  cfg_lookup configs n = Some c -> c ∈ configs /\ cfg_Name c = n.
Proof.
  unfold cfg_lookup. intros H. apply find_some in H as [Hin Heq].
  apply String.eqb_eq in Heq. split; [by apply list_elem_of_In|done].
Qed.

Lemma configNames_loop_ok (configs : list ResourcesConfig) (m m' : gmap string ResourceNeeds) :
  configNames_loop configs m = inr m' ->
  NoDup (map cfg_Name configs) /\ (forall c, c ∈ configs -> m !! cfg_Name c = None) /\
  forall n, m' !! n = match cfg_lookup configs n with
                      | Some c => Some (cfg_Needs c) | None => m !! n end.
Proof.
  revert m. induction configs as [|c configs IH]; intros m H; simpl in H.
  - injection H as <-. split_and!; [constructor | intros c Hc; by apply elem_of_nil in Hc | done].
  - destruct (m !! cfg_Name c) eqn:Hm; [discriminate|].
    destruct (IH _ H) as (Hnd & Hfree & Hlook).
    assert (Hne : forall c', c' ∈ configs -> cfg_Name c' <> cfg_Name c).
    { intros c' Hc' Heq. specialize (Hfree c' Hc'). rewrite Heq, lookup_insert_eq in Hfree.
      discriminate. }
    split_and!.
    + simpl. constructor; [|done]. intros Hin. apply list_elem_of_fmap in Hin as (c' & Heq & Hc').
      by apply (Hne c').
    + intros c' Hc'. apply elem_of_cons in Hc' as [->|Hc']; [done|].
      specialize (Hfree c' Hc'). rewrite lookup_insert_ne in Hfree; [done|].
      intros Heq. by apply (Hne c').
    + intros n. rewrite Hlook. unfold cfg_lookup at 2. simpl.
      destruct (String.eqb_spec (cfg_Name c) n) as [<-|Hcn].
      * destruct (cfg_lookup configs (cfg_Name c)) as [c'|] eqn:Hl.
        -- apply cfg_lookup_Some in Hl as [Hc' Heq]. by destruct (Hne c' Hc').
        -- by rewrite lookup_insert_eq.
      * fold (cfg_lookup configs n). destruct (cfg_lookup configs n); [done|].
        by rewrite lookup_insert_ne.
Qed.

Lemma configNames_loop_nodup (configs : list ResourcesConfig) (m : gmap string ResourceNeeds) :
  NoDup (map cfg_Name configs) -> (forall c, c ∈ configs -> m !! cfg_Name c = None) ->
  exists m', configNames_loop configs m = inr m'.
Proof.
  revert m. induction configs as [|c configs IH]; intros m Hnd Hfree; simpl; [eauto|].
  rewrite Hfree by (apply elem_of_cons; auto).
  apply NoDup_cons in Hnd as [Hnotin Hnd]. apply IH; [done|].
  intros c' Hc'. rewrite lookup_insert_ne.
  - apply Hfree. apply elem_of_cons. auto.
  - intros Heq. apply Hnotin. rewrite Heq. apply list_elem_of_fmap. eauto.
Qed.

Section Census.
Variable configNames : gmap string ResourceNeeds.
Variable look : string -> option ResourceNeeds.
Hypothesis Hlook : forall n, configNames !! n = look n.

Definition has_need (k : string) (res : Resource) : bool :=
  match look (res_Type res) with Some c => bool_decide (is_Some (c !! k)) | None => false end.

Definition need_sum (k : string) (resources : list Resource) : Z :=
  fold_right (fun res acc =>
    match look (res_Type res) with Some c => default 0 (c !! k) | None => 0 end + acc) 0 resources.

Lemma need_sum_absent (k : string) (resources : list Resource) :
  existsb (has_need k) resources = false -> need_sum k resources = 0.
Proof.
  induction resources as [|r rs IH]; simpl; [done|]. intros H.
  apply orb_false_iff in H as [H1 H2]. rewrite IH by done. unfold has_need in H1.
  destruct (look (res_Type r)) as [c|]; [|lia].
  destruct (c !! k); [discriminate|]. simpl. lia.
Qed.

Lemma census_needs_lookup (resources : list Resource) (rn ar : gmap string Z) (k : string) :
  (census_loop configNames resources rn ar).1 !! k =
  if existsb (has_need k) resources
  then Some (int64_wrap (default 0 (rn !! k) + need_sum k resources)) else rn !! k.
Proof.
  revert rn ar. induction resources as [|r rs IH]; intros rn ar; simpl; [done|].
  rewrite IH, Hlook. cbn [need_sum fold_right]. fold (need_sum k rs).
  change (has_need k r) with
    (match look (res_Type r) with Some c => bool_decide (is_Some (c !! k)) | None => false end).
  destruct (look (res_Type r)) as [c|]; simpl.
  - rewrite add_needs_lookup. destruct (c !! k) as [v|] eqn:Hc; simpl.
    + try (rewrite bool_decide_true by eauto). simpl.
      destruct (existsb _ rs) eqn:Hx.
      * rewrite int64_wrap_add_l. do 2 f_equal. lia.
      * rewrite need_sum_absent by done. do 2 f_equal. lia.
    + try (rewrite bool_decide_false by (intros [? ?]; discriminate)). simpl.
      destruct (existsb _ rs); [do 2 f_equal; lia|done].
  - destruct (existsb _ rs); [do 2 f_equal; lia|done].
Qed.

Lemma census_actual_lookup (resources : list Resource) (rn ar : gmap string Z) (k : string) :
  (census_loop configNames resources rn ar).2 !! k =
  if existsb (fun res => String.eqb (res_Type res) k) resources
  then Some (int64_wrap (default 0 (ar !! k) + census_count resources k)) else ar !! k.
Proof.
  revert rn ar. induction resources as [|r rs IH]; intros rn ar; simpl; [done|].
  rewrite IH. unfold census_count. simpl.
  destruct (String.eqb_spec (res_Type r) k) as [<-|Hne]; simpl.
  - rewrite lookup_insert_eq. simpl. rewrite ?String.eqb_refl. simpl.
    destruct (existsb _ rs) eqn:Hx; [rewrite int64_wrap_add_l; do 2 f_equal; lia|].
    do 2 f_equal.
    assert (Hz : List.filter (fun res => String.eqb (res_Type res) (res_Type r)) rs = []).
    { clear -Hx. induction rs as [|r' rs IH]; simpl in *; [done|].
      apply orb_false_iff in Hx as [H1 H2]. rewrite H1. auto. }
    rewrite Hz. simpl. lia.
  - rewrite lookup_insert_ne by done.
    destruct (String.eqb (res_Type r) k) eqn:Hb; [apply String.eqb_eq in Hb; congruence|].
    destruct (existsb _ rs); [do 2 f_equal; unfold census_count; lia|done].
Qed.
End Census.

Lemma needs_loop_none (l : list (string * Z)) (ar : gmap string Z) :
  needs_loop l ar = None <-> forall k n, (k, n) ∈ l -> exists a, ar !! k = Some a /\ n <= a.
Proof.
  induction l as [|[k n] l IH]; simpl.
  - split; [|done]. intros _ k n Hin. by apply elem_of_nil in Hin.
  - destruct (ar !! k) as [a|] eqn:Ha.
    + destruct (Z.ltb_spec a n) as [Hlt|Hge].
      * split; [discriminate|]. intros H. destruct (H k n) as (a' & Ha' & Hle);
          [apply elem_of_cons; auto|]. exfalso. rewrite Ha in Ha'. injection Ha' as ->. lia.
      * rewrite IH. split.
        -- intros H k' n' Hin. apply elem_of_cons in Hin as [Heq|Hin]; [|auto].
           injection Heq as -> ->. eauto.
        -- intros H k' n' Hin. apply H. apply elem_of_cons. auto.
    + split; [discriminate|]. intros H. destruct (H k n) as (a' & Ha' & _);
        [apply elem_of_cons; auto|]. congruence.
Qed.

Lemma existsb_type_count (resources : list Resource) (k : string) :
  existsb (fun res => String.eqb (res_Type res) k) resources = true <-> 0 < census_count resources k.
Proof.
  unfold census_count. induction resources as [|r rs IH]; simpl; [lia|].
  destruct (String.eqb (res_Type r) k); simpl; [lia|]. done.
Qed.

(** C8 (as the code has it): [ValidateConfig] returns nil exactly when the
    config names are pairwise distinct and, for every type [k] that is a key
    of the Needs of the config named after the type of some census resource,
    the census holds at least one resource of type [k] and, compared as Go
    [int]s, at least as many as the Needs for [k] summed once per census
    resource (through the config named after that resource's type).  The
    sum and the count are accumulated in [int], so they wrap around modulo
    2^64: a sum that overflows can wrap to a small or negative value and be
    accepted.  Otherwise it returns an error; it is a pure function of its
    two arguments. *)
Theorem ValidateConfig_outcome (configs : list ResourcesConfig) (resources : list Resource) :
  ValidateConfig configs resources = None <->
  NoDup (map cfg_Name configs) /\
  forall k, existsb (needs_key configs k) resources = true ->
    0 < census_count resources k /\
    int64_wrap (needed configs resources k) <= int64_wrap (census_count resources k).
Proof.
  unfold ValidateConfig. destruct (configNames_loop configs ∅) as [e|cn] eqn:Hl.
  - split; [discriminate|]. intros [Hnd _].
    destruct (configNames_loop_nodup configs ∅ Hnd) as [m' Hm'];
      [intros; apply lookup_empty | congruence].
  - destruct (configNames_loop_ok _ _ _ Hl) as (Hnd & _ & Hlook).
    assert (Hlk : forall n, cn !! n = cfg_needs_for configs n).
    { intros n. rewrite Hlook, lookup_empty. unfold cfg_needs_for.
      by destruct (cfg_lookup configs n). }
    pose proof (census_needs_lookup cn (cfg_needs_for configs) Hlk resources ∅ ∅) as Hrn.
    pose proof (census_actual_lookup cn resources ∅ ∅) as Har.
    destruct (census_loop cn resources ∅ ∅) as [rn ar]. simpl in Hrn, Har.
    change (has_need (cfg_needs_for configs)) with (needs_key configs) in Hrn.
    change (need_sum (cfg_needs_for configs)) with (fun k rs => needed configs rs k) in Hrn.
    simpl in Hrn. rewrite needs_loop_none. split.
    + intros H. split; [done|]. intros k Hk.
      specialize (Hrn k). rewrite Hk, lookup_empty in Hrn. simpl in Hrn. rewrite Z.add_0_l in Hrn.
      destruct (H k (int64_wrap (needed configs resources k))) as (a & Ha & Hle);
        [apply elem_of_map_to_list; rewrite Hrn; reflexivity|].
      specialize (Har k). rewrite lookup_empty in Har. simpl in Har. rewrite Z.add_0_l in Har.
      destruct (existsb (fun res => String.eqb (res_Type res) k) resources) eqn:Hx;
        [|congruence].
      apply existsb_type_count in Hx. rewrite Har in Ha. injection Ha as <-. lia.
    + intros [_ H] k n Hin. apply elem_of_map_to_list in Hin.
      specialize (Hrn k). rewrite lookup_empty in Hrn. simpl in Hrn. rewrite Z.add_0_l in Hrn.
      destruct (existsb (needs_key configs k) resources) eqn:Hk; [|congruence].
      rewrite Hin in Hrn. injection Hrn as ->.
      destruct (H k Hk) as [Hpos Hle].
      specialize (Har k). rewrite lookup_empty in Har. simpl in Har. rewrite Z.add_0_l in Har.
      apply existsb_type_count in Hpos. rewrite Hpos in Har.
      exists (int64_wrap (census_count resources k)). split; [exact Har | exact Hle].
Qed.

(** C8, as stated, fails: with one config [A] needing one [B] and a census of
    two [A] resources and one [B], no name repeats and the census holds the
    one [B] that the config needs, yet [ValidateConfig] reports an error,
    because it adds [A]'s Needs once per [A] resource of the census. *)
Lemma ValidateConfig_sums_per_resource :
  ~ (forall (configs : list ResourcesConfig) (resources : list Resource),
       ValidateConfig configs resources = None <->
       NoDup (map cfg_Name configs) /\
       forall k, (exists c, c ∈ configs /\
                    existsb (fun res => String.eqb (res_Type res) (cfg_Name c)) resources = true /\
                    is_Some (cfg_Needs c !! k)) ->
         0 < census_count resources k /\
         needed_per_config configs resources k <= census_count resources k).
Proof.
  intros H. destruct (H [cfg_A] [a1; a2; b1]) as [_ Hback].
  assert (Hv : ValidateConfig [cfg_A] [a1; a2; b1] = None).
  { apply Hback. split; [apply NoDup_singleton|].
    intros k (c & Hc & _ & Hk). apply list_elem_of_singleton in Hc. subst c.
    change (cfg_Needs cfg_A) with ({["B" := 1]} : ResourceNeeds) in Hk.
    destruct Hk as [v Hk]. apply lookup_singleton_Some in Hk as [<- _].
    assert (Hc : census_count [a1; a2; b1] "B" = 1) by reflexivity.
    assert (Hn : needed_per_config [cfg_A] [a1; a2; b1] "B" = 1) by reflexivity.
    rewrite Hc, Hn. lia. }
  vm_compute in Hv. discriminate Hv.
Qed.

(** C1, as stated, fails: when the primary [a1] is released to free but the
    release of its leased resource [b1] to [a1] fails, [freeOne] returns the
    aggregate error and the Releaser does put the request back onto
    [cleaned]. *)
Lemma freeAll_requeues_after_lease_failure :
  ~ (forall (E : Env) (req : requirements) (s : St),
       b_ReleaseOne E (trace s) (res_Name (resource req)) Free = None ->
       (exists errs, fst (freeOne E (resource req) s) = Some (EMulti errs)) ->
       cleaned (snd (freeAll_step E req s)) = cleaned s).
Proof.
  intros H.
  set (ud := ({[LeasedResources := "[b1, b2]"]} : UserData)).
  set (ful := ({["B" := [b1; b2]]} : TypeToResources)).
  set (needs0 := ({["B" := 2]} : ResourceNeeds)).
  set (req := mkRequirements (mkResource "a1" "A" Cleaning (Some ud)) needs0 ful).
  specialize (H (sample_env (fun n _ => String.eqb n "b1") (fun _ => false) (fun _ => inr sample_cfg))
                req st0 eq_refl).
  assert (Hc : cleaned (snd (freeAll_step
                 (sample_env (fun n _ => String.eqb n "b1") (fun _ => false) (fun _ => inr sample_cfg))
                 req st0)) = [req]) by (vm_compute; reflexivity).
  rewrite Hc in H. unfold st0 in H. simpl in H.
  assert (Hne : [req] <> []) by discriminate. apply Hne, H.
  eexists. vm_compute. reflexivity.
Qed.

(** ** Instances of the properties *)

Lemma cleanAll_failure_releases_all_dirty_witness :
  cleanOne env_nocfg (resource req_held) (fulfillment req_held) st0 =
    ((Some (EMsg "no config"), a1), snd (cleanOne env_nocfg a1 ful_b1b2 st0)) /\
  trace (snd (cleanAll_step env_nocfg req_held st0)) =
    [CReleaseOne "a1" Dirty; CReleaseOne "b1" Dirty; CReleaseOne "b2" Dirty].
Proof.
  split; [reflexivity|].
  pose proof (cleanAll_failure_releases_all_dirty env_nocfg req_held st0
                (snd (cleanOne env_nocfg a1 ful_b1b2 st0)) (EMsg "no config") a1 eq_refl) as H.
  cbv zeta in H. destruct H as [Ht _]. rewrite Ht. vm_compute. reflexivity.
Defined.

Lemma recycleOne_lease_reclaim_witness :
  storage_GetConfig env_ok (res_Type a1_leasing) = inr sample_cfg /\
  fst (recycleOne env_ok a1_leasing st0) =
    inr (mkRequirements (with_UserData a1_leasing (Some (delete LeasedResources ud_b1b2)))
                        (cfg_Needs sample_cfg) ∅).
Proof.
  split; [reflexivity|].
  destruct (recycleOne_lease_reclaim env_ok a1_leasing st0 sample_cfg eq_refl) as [_ H].
  destruct (H ud_b1b2 "[b1, b2]" eq_refl) as [Hsome _]; [vm_compute; reflexivity|].
  apply (Hsome ["b1"; "b2"]). reflexivity.
Defined.

Lemma fulfillAll_cancel_releases_secondaries_witness :
  fulfillOne env_cancel 5 req_wait st0 =
    ((Some (Some ECanceled), snd (fst (fulfillOne env_cancel 5 req_wait st0))),
     snd (fulfillOne env_cancel 5 req_wait st0)) /\
  exists cs, trace (snd (fulfillAll_step env_cancel 5 req_wait st0)) = cs ++ [CReleaseOne "b1" Free].
Proof.
  split; [vm_compute; reflexivity|].
  destruct (fulfillAll_cancel_releases_secondaries env_cancel 5 req_wait
              (snd (fst (fulfillOne env_cancel 5 req_wait st0)))
              st0 (snd (fulfillOne env_cancel 5 req_wait st0))) as (cs & Ht & _);
    [vm_compute; reflexivity|].
  exists cs. rewrite Ht. f_equal; vm_compute; reflexivity.
Defined.

Lemma recycle_error_cases_and_push_witness :
  b_Acquire env_ok (trace st0) "A" Dirty Cleaning = inr b1 /\
  exists req, fst (recycleOne env_ok b1 (add_call (CAcquire "A" Dirty Cleaning) st0)) = inr req /\
              pending (snd (recycle_type env_ok "A" st0)) = [req].
Proof.
  split; [reflexivity|].
  pose proof (recycle_error_cases_and_push env_ok "A" st0 b1 eq_refl) as H.
  cbv zeta in H. destruct H as (_ & Hpush & Hok).
  destruct (Hok sample_cfg eq_refl) as (req & Hreq & _).
  { intros e He. vm_compute in He. injection He as <-. eauto. }
  exists req. split; [done|]. destruct (Hpush req Hreq) as [Hp _]. rewrite Hp. reflexivity.
Defined.

Lemma recycleAll_acquire_per_config_witness :
  storage_GetConfigs env_ok = inr [sample_cfg] /\
  exists cs, trace (snd (recycleAll_iter env_ok st0)) = cs /\
             List.filter is_acquire cs = [CAcquire "cfg" Dirty Cleaning].
Proof.
  split; [reflexivity|].
  destruct (recycleAll_acquire_per_config env_ok st0 [sample_cfg] eq_refl) as [(cs & Ht & Hf) _].
  exists cs. split; [done|]. rewrite Hf. reflexivity.
Defined.

Lemma fulfillOne_unfulfilled_returns_nil_witness :
  fulfill_types env_ok 5 (map_to_list (needs req_zero)) req_zero st0 = ((LCompleted, req_zero), st0) /\
  isFulFilled req_zero = false /\
  fulfillOne env_ok 5 req_zero st0 = ((Some None, req_zero), st0).
Proof.
  split; [vm_compute; reflexivity|]. split; [vm_compute; reflexivity|].
  apply fulfillOne_unfulfilled_returns_nil; vm_compute; reflexivity.
Defined.

Lemma freeOne_nil_userdata_requeued_witness :
  res_UserData (resource req_held) = None /\
  cleaned (snd (freeAll_step env_ok req_held st0)) = [req_held].
Proof.
  split; [reflexivity|].
  destruct (freeOne_nil_userdata_requeued env_ok req_held st0 eq_refl) as (_ & Hc & _).
  rewrite Hc. reflexivity.
Defined.

(* ================================================================== *)
(** * Further properties of the code *)

(** ** Cleaning a resource *)

(** When [cleanOne] succeeds, the config of the primary's type was found,
    converted, and its constructor, given the primary and the request's
    leased resources, returned some user-data; the only broker call was one
    [UpdateOne] of the primary, in its state, with that user-data; the
    primary comes back with that user-data (merged into its own when it had
    some), its name, type and state unchanged, and no queue is touched. *)
Theorem cleanOne_success (E : Env) (res res' : Resource) (l : TypeToResources) (s s' : St) :
  cleanOne E res l s = ((None, res'), s') ->
  exists cfg config ud,
    storage_GetConfig E (res_Type res) = inr cfg /\ convertConfig E cfg = inr config /\
    config res l = inr ud /\
    trace s' = trace s ++ [CUpdateOne (res_Name res) (res_State res) (Some ud)] /\
    res' = with_UserData res (Some match res_UserData res with
                                   | None => ud | Some u => ud_Update u ud end) /\
    queues s' = queues s.
Proof.
  unfold cleanOne.
  destruct (storage_GetConfig E (res_Type res)) as [e|cfg]; [mrun; congruence|].
  destruct (convertConfig E cfg) as [e|config] eqn:Hconv; [mrun; congruence|].
  destruct (config res l) as [e|ud] eqn:Hc; [mrun; congruence|].
  mrun. destruct (b_UpdateOne _ _ _ _ _); mrun; [congruence|].
  intros H. injection H as <- <-. exists cfg, config, ud. split_and!; auto.
Qed.

(** Whatever the outcome, [cleanOne] makes at most one broker call, an
    [UpdateOne] of the primary in its state with the constructed user-data,
    and when it fails it returns the primary unchanged. *)
Theorem cleanOne_calls (E : Env) (res : Resource) (l : TypeToResources) (s : St) :
  (trace (snd (cleanOne E res l s)) = trace s \/
   exists ud, trace (snd (cleanOne E res l s)) =
              trace s ++ [CUpdateOne (res_Name res) (res_State res) (Some ud)]) /\
  (forall err res', fst (cleanOne E res l s) = (Some err, res') -> res' = res).
Proof.
  unfold cleanOne.
  destruct (storage_GetConfig E (res_Type res)) as [e|cfg];
    [mrun; split; [auto | intros ? ? H; congruence]|].
  destruct (convertConfig E cfg) as [e|config]; [mrun; split; [auto | intros ? ? H; congruence]|].
  destruct (config res l) as [e|ud]; [mrun; split; [auto | intros ? ? H; congruence]|].
  mrun. destruct (b_UpdateOne _ _ _ _ _); mrun;
    (split; [right; exists ud; done | intros ? ? H; congruence]).
Qed.

(** ** Heartbeats *)

Lemma emits_update_logged (E : Env) (name st : string) (ud : option UserData) (onerr : M unit) :
  emits onerr [] ->
  emits (let* e := UpdateOne E name st ud in
         match e with Some _ => onerr | None => ret tt end)
        [CUpdateOne name st ud].
Proof.
  intros Hon s. unfold mbind, UpdateOne. destruct (b_UpdateOne _ _ _ _ _).
  - destruct (Hon (add_call (CUpdateOne name st ud) s)) as (T & P & F & C).
    rewrite T, P, F, C. unfold add_call. simpl. rewrite app_nil_r. auto.
  - unfold ret, add_call. simpl. auto.
Qed.

(** [updateResources] sends a nil-user-data [UpdateOne] for the primary and
    then for every resource of the fulfillment, each in its own state, in
    that order, whether or not earlier ones fail, and touches no queue. *)
Theorem updateResources_heartbeats (E : Env) (req : requirements) (s : St) :
  trace (snd (updateResources E req s)) =
    trace s ++ map (fun r => CUpdateOne (res_Name r) (res_State r) None)
                   (resource req :: all_resources (fulfillment req)) /\
  queues (snd (updateResources E req s)) = queues s.
Proof.
  unfold updateResources.
  destruct (emits_mapM_ _ (fun r => [CUpdateOne (res_Name r) (res_State r) None])
              (resource req :: all_resources (fulfillment req))
              (fun r => emits_update_logged E (res_Name r) (res_State r) None _
                          (emits_log Warning "failed to update resource")) s)
    as (T & P & F & C).
  rewrite T, concat_map_singleton. unfold queues. rewrite P, F, C. auto.
Qed.

(** ** Acquisition loops of the Fulfiller *)

Lemma keeps_updateResources (E : Env) (req : requirements) : keeps (updateResources E req).
Proof. unfold updateResources. keeps_tac. Qed.

Lemma fulfill_type_completed (E : Env) (fuel : nat) (rType : string) (n : Z)
    (req req' : requirements) (s s' : St) :
  fulfill_type E fuel rType n req s = ((LCompleted, req'), s') ->
  resource req' = resource req /\ needs req' = needs req /\
  (forall t, t <> rType -> fulfillment req' !! t = fulfillment req !! t) /\
  (0 < n -> exists acq, length acq = Z.to_nat n /\
     fulfillment req' !! rType = Some (default [] (fulfillment req !! rType) ++ acq)) /\
  (n <= 0 -> fulfillment req' = fulfillment req).
Proof.
  revert n req s. induction fuel as [|fuel IH]; intros n req s H; simpl in H.
  - discriminate.
  - destruct (Z.ltb_spec 0 n) as [Hn|Hn].
    + rewrite mbind_run in H. cbn [ctxDone fst snd] in H.
      destruct (ctx_done E (trace s)); [discriminate|].
      rewrite mbind_run in H. set (s2 := snd (updateResources E req s)) in H.
      rewrite mbind_run in H. cbn [Acquire fst snd] in H.
      destruct (b_Acquire E (trace s2) rType Free Leased) as [e|res].
      * rewrite mbind_run in H. apply IH in H as (R & N & O & P & Z). split_and!; auto.
      * apply IH in H as (R & N & O & P & Z). simpl in R, N, O.
        split_and!; auto; [| |lia].
        -- intros t Ht. rewrite O by done. simpl. by apply lookup_insert_ne.
        -- intros _. destruct (Z.ltb_spec 0 (n - 1)) as [Hn1|Hn1].
           ++ destruct (P Hn1) as (acq & Hl & Hf). exists (res :: acq). split; [simpl; lia|].
              rewrite Hf. simpl. rewrite lookup_insert_eq. simpl. by rewrite <- List.app_assoc.
           ++ exists [res]. split; [simpl; lia|]. rewrite (Z Hn1). simpl.
              by rewrite lookup_insert_eq.
    + unfold ret in H. injection H as <- <-. split_and!; auto. lia.
Qed.

Lemma fulfill_types_completed (E : Env) (fuel : nat) (l : list (string * Z))
    (req req' : requirements) (s s' : St) :
  NoDup l.*1 ->
  fulfill_types E fuel l req s = ((LCompleted, req'), s') ->
  resource req' = resource req /\ needs req' = needs req /\
  forall t,
    (forall n, (t, n) ∈ l -> 0 < n -> exists acq, length acq = Z.to_nat n /\
       fulfillment req' !! t = Some (default [] (fulfillment req !! t) ++ acq)) /\
    ((forall n, (t, n) ∈ l -> n <= 0) -> fulfillment req' !! t = fulfillment req !! t).
Proof.
  revert req s. induction l as [|[t0 n0] l IH]; intros req s Hnd H; simpl in H.
  - injection H as <- <-. split_and!; auto. intros t. split; [|done].
    intros n Hin. by apply elem_of_nil in Hin.
  - apply NoDup_cons in Hnd as [Hnotin Hnd].
    rewrite mbind_run in H.
    destruct (fulfill_type E fuel t0 n0 req s) as [[o r1] s1] eqn:Hft. simpl in H.
    destruct o; try discriminate.
    apply fulfill_type_completed in Hft as (R1 & N1 & O1 & P1 & Z1).
    apply IH in H as (R & N & Hall); [|done].
    split_and!; [congruence | congruence |]. intros t.
    assert (Hnl : forall n, (t0, n) ∈ l -> False).
    { intros n Hin. apply Hnotin. apply list_elem_of_fmap. by exists (t0, n). }
    destruct (String.eqb_spec t t0) as [->|Hne].
    + destruct (Hall t0) as [_ Hkeep]. rewrite Hkeep by (intros n Hin; by destruct (Hnl n Hin)).
      split.
      * intros n Hin Hpos. apply elem_of_cons in Hin as [Heq|Hin]; [|by destruct (Hnl n Hin)].
        injection Heq as ->. by apply P1.
      * intros Hle. rewrite Z1; [done|]. apply Hle. apply elem_of_cons. auto.
    + destruct (Hall t) as [Hacq Hkeep]. rewrite <- (O1 t Hne). split.
      * intros n Hin Hpos. apply Hacq; [|done].
        apply elem_of_cons in Hin as [Heq|Hin]; [congruence|done].
      * intros Hle. apply Hkeep. intros n Hin. apply Hle. apply elem_of_cons. auto.
Qed.

(** When the acquisition loops of [fulfillOne] run to completion, the
    primary and the needs are unchanged, every type [t] needed with a
    positive count [n] has exactly [n] resources appended to
    [fulfillment[t]], and every other entry of the fulfillment is as before. *)
Theorem fulfillOne_loops_append (E : Env) (fuel : nat) (req req' : requirements) (s s' : St) :
  fulfill_types E fuel (map_to_list (needs req)) req s = ((LCompleted, req'), s') ->
  resource req' = resource req /\ needs req' = needs req /\
  forall t,
    (forall n, needs req !! t = Some n -> 0 < n -> exists acq, length acq = Z.to_nat n /\
       fulfillment req' !! t = Some (default [] (fulfillment req !! t) ++ acq)) /\
    ((forall n, needs req !! t = Some n -> n <= 0) -> fulfillment req' !! t = fulfillment req !! t).
Proof.
  intros H. apply fulfill_types_completed in H as (R & N & Hall); [|apply NoDup_fst_map_to_list].
  split_and!; [done|done|]. intros t. destruct (Hall t) as [Hacq Hkeep]. split.
  - intros n Hn. apply Hacq. by apply elem_of_map_to_list.
  - intros Hle. apply Hkeep. intros n Hin. apply Hle. by apply elem_of_map_to_list.
Qed.

(** A request fresh from the Recycler (empty fulfillment) whose needs are
    all positive is fulfilled once the acquisition loops of [fulfillOne] run
    to completion. *)
Theorem fulfillOne_loops_fulfill_fresh (E : Env) (fuel : nat) (req req' : requirements) (s s' : St) :
  fulfillment req = ∅ ->
  (forall t n, needs req !! t = Some n -> 0 < n) ->
  fulfill_types E fuel (map_to_list (needs req)) req s = ((LCompleted, req'), s') ->
  isFulFilled req' = true.
Proof.
  intros Hempty Hpos H.
  apply fulfill_types_completed in H as (R & N & Hall); [|apply NoDup_fst_map_to_list].
  apply isFulFilled_iff. rewrite N. intros t c Hc.
  destruct (Hall t) as [Hacq _]. destruct (Hacq c) as (acq & Hl & Hf);
    [by apply elem_of_map_to_list | eauto |].
  rewrite Hempty, lookup_empty in Hf. simpl in Hf. exists acq. split; [done|].
  specialize (Hpos t c Hc). lia.
Qed.

(** ** Recording the lease *)

Lemma fulfillOne_finish_success (E : Env) (req req' : requirements) (s s' : St) :
  isFulFilled req = true ->
  fulfillOne_finish E req s = ((None, req'), s') ->
  exists c, encode_names E (lease_value req) = inr c /\
    trace s' = trace s ++ [CUpdateOne (res_Name (resource req)) (res_State (resource req))
                                      (Some {[LeasedResources := c]})] /\
    resource req' = with_UserData (resource req)
      (Some match res_UserData (resource req) with
            | None => {[LeasedResources := c]}
            | Some u => ud_Update u {[LeasedResources := c]} end) /\
    needs req' = needs req /\ fulfillment req' = fulfillment req /\ queues s' = queues s.
Proof.
  intros Hf. unfold fulfillOne_finish, ud_Set, lease_value. rewrite Hf. cbv zeta.
  destruct (encode_names E _) as [e|c] eqn:Henc; [mrun; congruence|].
  rewrite insert_empty. mrun. destruct (b_UpdateOne _ _ _ _ _); mrun; [congruence|].
  intros H. injection H as <- <-. exists c. simpl. split_and!; auto.
Qed.

Lemma fulfillOne_finishes (E : Env) (fuel : nat) (req req' : requirements) (s s' : St) :
  fulfillOne E fuel req s = ((Some None, req'), s') ->
  isFulFilled req' = true ->
  exists r1 s1, fulfill_types E fuel (map_to_list (needs req)) req s = ((LCompleted, r1), s1) /\
    isFulFilled r1 = true /\ fulfillOne_finish E r1 s1 = ((None, req'), s').
Proof.
  intros H Hf. unfold fulfillOne in H. rewrite mbind_run in H.
  destruct (fulfill_types E fuel (map_to_list (needs req)) req s) as [[o r1] s1] eqn:Hl.
  simpl in H. destruct o; try (unfold ret in H; congruence).
  rewrite mbind_run in H. destruct (fulfillOne_finish E r1 s1) as [[e r2] s2] eqn:Hfin.
  simpl in H. unfold ret in H. injection H as -> <- <-.
  exists r1, s1. split_and!; [done| |done].
  destruct (isFulFilled r1) eqn:H1; [done|].
  unfold fulfillOne_finish in Hfin. rewrite H1 in Hfin. unfold ret in Hfin. congruence.
Qed.

Lemma lease_user_data (u : option UserData) (c : string) :
  let U := match u with None => {[LeasedResources := c]} | Some u => ud_Update u {[LeasedResources := c]} end in
  U !! LeasedResources = Some c /\ forall k, k <> LeasedResources -> U !! k = u ≫= (.!! k).
Proof.
  destruct u as [u|]; simpl; unfold ud_Update; split.
  - apply lookup_union_Some_l, lookup_singleton_eq.
  - intros k Hk. rewrite lookup_union_r; [done|]. by apply lookup_singleton_ne.
  - apply lookup_singleton_eq.
  - intros k Hk. by apply lookup_singleton_ne.
Qed.

(** When [fulfillOne] returns nil with a fulfilled request, its last broker
    call was an [UpdateOne] of the primary, in its state, with user-data
    holding only [leasedResources], set to the encoding of the names of all
    fulfilled resources; the primary's in-memory user-data maps
    [leasedResources] to the same string and keeps all its other keys. *)
Theorem fulfillOne_records_lease (E : Env) (fuel : nat) (req req' : requirements) (s s' : St) :
  fulfillOne E fuel req s = ((Some None, req'), s') ->
  isFulFilled req' = true ->
  exists c tr U, encode_names E (lease_value req') = inr c /\
    trace s' = tr ++ [CUpdateOne (res_Name (resource req')) (res_State (resource req'))
                                 (Some {[LeasedResources := c]})] /\
    res_UserData (resource req') = Some U /\ U !! LeasedResources = Some c /\
    forall k, k <> LeasedResources -> U !! k = res_UserData (resource req) ≫= (.!! k).
Proof.
  intros H Hf. destruct (fulfillOne_finishes _ _ _ _ _ _ H Hf) as (r1 & s1 & Hl & H1 & Hfin).
  apply fulfill_types_completed in Hl as (R & _ & _); [|apply NoDup_fst_map_to_list].
  destruct (fulfillOne_finish_success _ _ _ _ _ H1 Hfin) as (c & Hc & T & Rs & N & F & _).
  assert (Hlv : lease_value req' = lease_value r1) by (unfold lease_value; by rewrite F).
  destruct (lease_user_data (res_UserData (resource r1)) c) as [HL Hk].
  exists c, (trace s1), (match res_UserData (resource r1) with
                        | None => {[LeasedResources := c]}
                        | Some u => ud_Update u {[LeasedResources := c]} end).
  rewrite Hlv, Rs. split_and!; [done|done|done|done|]. rewrite <- R. done.
Qed.

Lemma default_lease_value (req : requirements) :
  default [] (lease_value req) = map res_Name (all_resources (fulfillment req)).
Proof. unfold lease_value. by destruct (map res_Name _). Qed.

(** A lease recorded by [fulfillOne] is found again by the Recycler: if the
    codec decodes the stored string back to the list of names, and the
    config of the primary's type is found, [recycleOne] on the primary as
    [fulfillOne] left it calls [AcquireByState] from the state named after
    the primary, to leased, with exactly the names of the resources the
    request was fulfilled with. *)
Theorem fulfill_lease_reclaimed_by_recycle (E : Env) (fuel : nat) (req req' : requirements)
    (s s' s2 : St) (cfg : ResourcesConfig) :
  fulfillOne E fuel req s = ((Some None, req'), s') ->
  isFulFilled req' = true ->
  lease_value req' <> None ->
  (forall c, encode_names E (lease_value req') = inr c -> decode_names E c = inr (lease_value req')) ->
  storage_GetConfig E (res_Type (resource req')) = inr cfg ->
  exists cs, trace (snd (recycleOne E (resource req') s2)) =
    trace s2 ++ CAcquireByState (res_Name (resource req')) Leased
                   (map res_Name (all_resources (fulfillment req'))) :: cs.
Proof.
  intros H Hf Hne Hrt Hcfg.
  destruct (fulfillOne_records_lease _ _ _ _ _ _ H Hf) as (c & tr & U & Hc & _ & HU & HL & _).
  destruct (lease_value req') as [names|] eqn:Hlv; [|done].
  assert (Hnames : names = map res_Name (all_resources (fulfillment req'))).
  { pose proof (default_lease_value req') as Hd. rewrite Hlv in Hd. exact Hd. }
  assert (Hx : ud_Extract E (res_UserData (resource req')) LeasedResources = inr (Some names)).
  { unfold ud_Extract. rewrite HU, HL. by apply Hrt. }
  destruct (recycleOne_reclaim_some E (resource req') s2 cfg names Hcfg Hx) as (T & _ & _).
  rewrite T, <- Hnames. eauto.
Qed.

(** A lease recorded by [fulfillOne] is what the Releaser parks: if the codec
    decodes the stored string back, and releasing the primary to free
    succeeds, [freeOne] on the primary as [fulfillOne] left it releases the
    primary to free and then each resource the request was fulfilled with,
    in order, to the state named after the primary, and nothing else; with
    no fulfilled resource only the primary is released. *)
Theorem fulfill_lease_parked_by_free (E : Env) (fuel : nat) (req req' : requirements)
    (s s' s2 : St) :
  fulfillOne E fuel req s = ((Some None, req'), s') ->
  isFulFilled req' = true ->
  (forall c, encode_names E (lease_value req') = inr c -> decode_names E c = inr (lease_value req')) ->
  b_ReleaseOne E (trace s2) (res_Name (resource req')) Free = None ->
  trace (snd (freeOne E (resource req') s2)) =
    trace s2 ++ CReleaseOne (res_Name (resource req')) Free ::
    map (fun n => CReleaseOne n (res_Name (resource req')))
        (map res_Name (all_resources (fulfillment req'))).
Proof.
  intros H Hf Hrt Hrel.
  destruct (fulfillOne_records_lease _ _ _ _ _ _ H Hf) as (c & tr & U & Hc & _ & HU & HL & _).
  rewrite (freeOne_release_ok _ _ _ Hrel), HU.
  assert (Hx : ud_Extract E (Some U) LeasedResources = inr (lease_value req')).
  { unfold ud_Extract. rewrite HL. by apply Hrt. }
  rewrite Hx, default_lease_value. rewrite mbind_run.
  pose proof (release_names_spec E (map res_Name (all_resources (fulfillment req')))
                (res_Name (resource req')) [] (add_call (CReleaseOne (res_Name (resource req')) Free) s2)) as Hs.
  destruct (release_names _ _ _ _ _) as [errs s3]. destruct Hs as (T & _). simpl.
  destruct errs; mrun; rewrite T; unfold add_call; simpl;
    rewrite <- (List.app_assoc (trace s2) [CReleaseOne (res_Name (resource req')) Free]);
    try rewrite app_nil_r; done.
Qed.

(** ** Fulfiller step *)

(** What [fulfillAll] does with the outcome of [fulfillOne]: on nil it pushes
    the request, as [fulfillOne] left it, onto [fulfilled] and makes no
    broker call; on any error it releases every resource of that request's
    fulfillment to free, never the primary, and pushes nothing.  In both
    cases [fulfillOne] itself touched no queue. *)
Theorem fulfillAll_step_outcomes (E : Env) (fuel : nat) (req req' : requirements)
    (r : option (option Err)) (s s1 : St) :
  fulfillOne E fuel req s = ((r, req'), s1) ->
  let s' := snd (fulfillAll_step E fuel req s) in
  queues s1 = queues s /\
  (r = Some None ->
     trace s' = trace s1 /\ fulfilled s' = fulfilled s1 ++ [req'] /\
     pending s' = pending s1 /\ cleaned s' = cleaned s1) /\
  (forall err, r = Some (Some err) ->
     trace s' = trace s1 ++ map (fun x => CReleaseOne (res_Name x) Free)
                                (all_resources (fulfillment req')) /\
     queues s' = queues s1).
Proof.
  intros Hf. cbv zeta.
  destruct (fulfillOne_no_release E fuel req) as [_ Hk]. specialize (Hk s). rewrite Hf in Hk.
  assert (Hstep : fulfillAll_step E fuel req s =
    match r with
    | None => ret tt
    | Some (Some _) =>
        for_each_resource (fulfillment req') (fun res =>
          let* e := ReleaseOne E (res_Name res) Free in
          (match e with Some _ => log Error "failed to release resource" | None => ret tt end) ;;
          log Info "Released resource")
    | Some None => push_fulfilled req'
    end s1) by (unfold fulfillAll_step; rewrite mbind_run, Hf; reflexivity).
  rewrite Hstep. split_and!; [done| |].
  - intros ->. simpl. auto.
  - intros err ->.
    destruct (emits_for_each_resource (fulfillment req') _ (fun x => [CReleaseOne (res_Name x) Free])
      (fun x => emits_release_then E (res_Name x) Free _ _
          (emits_log Error "failed to release resource") (emits_log Info "Released resource")) s1)
      as (T & P & F & C).
    rewrite T, concat_map_singleton. unfold queues. rewrite P, F, C. auto.
Qed.

(** ** Recycler step *)

Lemma keeps_recycleOne (E : Env) (res : Resource) : keeps (recycleOne E res).
Proof. unfold recycleOne. keeps_tac. Qed.

Lemma recycleOne_ok (E : Env) (res : Resource) (s : St) (req : requirements) :
  fst (recycleOne E res s) = inr req ->
  exists cfg, storage_GetConfig E (res_Type res) = inr cfg /\ needs req = cfg_Needs cfg /\
    fulfillment req = ∅ /\ res_Name (resource req) = res_Name res.
Proof.
  intros H. destruct (recycleOne_cases E res) as [[e He]|(cfg & Hc & Hx)].
  - destruct (recycleOne_failure E res s e (or_introl He)) as (_ & Hr & _). congruence.
  - exists cfg. split; [done|].
    destruct Hx as [Hx|[Hx|[[names Hx]|(e & Hx & Hnf)]]].
    + destruct (recycleOne_no_reclaim E res s cfg Hc (or_introl Hx)) as (_ & Hr & _).
      rewrite Hr in H. injection H as <-. auto.
    + destruct (recycleOne_no_reclaim E res s cfg Hc (or_intror Hx)) as (_ & Hr & _).
      rewrite Hr in H. injection H as <-. auto.
    + destruct (recycleOne_reclaim_some E res s cfg names Hc Hx) as (_ & Hr & _).
      rewrite Hr in H. injection H as <-. auto.
    + destruct (recycleOne_failure E res s e (or_intror (ex_intro _ cfg (conj Hc (conj Hx Hnf)))))
        as (_ & Hr & _). congruence.
Qed.

Lemma recycle_type_queues (E : Env) (r : string) (s : St) :
  exists l, pending (snd (recycle_type E r s)) = pending s ++ l /\ (length l <= 1)%nat /\
    Forall (fun q => fulfillment q = ∅) l /\
    fulfilled (snd (recycle_type E r s)) = fulfilled s /\
    cleaned (snd (recycle_type E r s)) = cleaned s.
Proof.
  unfold recycle_type. rewrite mbind_run. cbn [Acquire fst snd].
  destruct (b_Acquire E (trace s) r Dirty Cleaning) as [e|res].
  - exists []. rewrite app_nil_r. split_and!; auto.
  - rewrite mbind_run. set (s1 := add_call (CAcquire r Dirty Cleaning) s).
    pose proof (keeps_recycleOne E res s1) as Hk.
    destruct (recycleOne E res s1) as [[e|req] s2] eqn:Hr; unfold queues in Hk; simpl in Hk |- *;
      injection Hk as Hp Hf Hc.
    + assert (Hk2 : keeps (log Error "unable to recycle resource" ;;
         let* e := ReleaseOne E (res_Name res) Dirty in
         match e with Some _ => log Error "Unable to release resources" | None => ret tt end))
        by keeps_tac.
      specialize (Hk2 s2). unfold queues in Hk2. injection Hk2 as -> -> ->.
      exists []. rewrite app_nil_r. split_and!; auto.
    + exists [req]. simpl. rewrite Hp, Hf, Hc. split_and!; auto.
      constructor; [|constructor].
      assert (Hok : fst (recycleOne E res s1) = inr req) by (rewrite Hr; done).
      by destruct (recycleOne_ok _ _ _ _ Hok) as (cfg & _ & _ & Hful & _).
Qed.

(** One Recycler iteration pushes onto [pending] at most one request per
    config of the snapshot, each with an empty fulfillment, and never touches
    [fulfilled] or [cleaned]; when the config snapshot cannot be read it
    makes no broker call and pushes nothing. *)
Theorem recycleAll_iter_enqueues (E : Env) (s : St) :
  (forall configs, storage_GetConfigs E = inr configs ->
     exists l, pending (snd (recycleAll_iter E s)) = pending s ++ l /\
       (length l <= length configs)%nat /\ Forall (fun q => fulfillment q = ∅) l /\
       fulfilled (snd (recycleAll_iter E s)) = fulfilled s /\
       cleaned (snd (recycleAll_iter E s)) = cleaned s) /\
  (forall e, storage_GetConfigs E = inl e ->
     trace (snd (recycleAll_iter E s)) = trace s /\ queues (snd (recycleAll_iter E s)) = queues s).
Proof.
  unfold recycleAll_iter. split.
  - intros configs ->. rewrite <- (length_map cfg_Name configs).
    generalize (map cfg_Name configs) as types. intros types. revert s.
    induction types as [|r types IH]; intros s; simpl.
    + exists []. rewrite app_nil_r. auto.
    + rewrite mbind_run. destruct (recycle_type_queues E r s) as (l1 & P1 & L1 & F1 & Fu1 & C1).
      destruct (IH (snd (recycle_type E r s))) as (l2 & P2 & L2 & F2 & Fu2 & C2).
      exists (l1 ++ l2). rewrite P2, P1, Fu2, Fu1, C2, C1, <- List.app_assoc.
      split_and!; auto; [rewrite length_app; lia | by apply Forall_app].
  - intros e ->. simpl. auto.
Qed.

(** ** Config validation, further *)

Lemma ValidateConfig_none_iff (configs : list ResourcesConfig) (resources : list Resource) :
  ValidateConfig configs resources = None <->
  NoDup (map cfg_Name configs) /\
  forall k, existsb (needs_key configs k) resources = true ->
    0 < census_count resources k /\
    int64_wrap (needed configs resources k) <= int64_wrap (census_count resources k).
Proof.
  unfold ValidateConfig. destruct (configNames_loop configs ∅) as [e|cn] eqn:Hl.
  - split; [discriminate|]. intros [Hnd _].
    destruct (configNames_loop_nodup configs ∅ Hnd) as [m' Hm'];
      [intros; apply lookup_empty | congruence].
  - destruct (configNames_loop_ok _ _ _ Hl) as (Hnd & _ & Hlook).
    assert (Hlk : forall n, cn !! n = cfg_needs_for configs n).
    { intros n. rewrite Hlook, lookup_empty. unfold cfg_needs_for.
      by destruct (cfg_lookup configs n). }
    pose proof (census_needs_lookup cn (cfg_needs_for configs) Hlk resources ∅ ∅) as Hrn.
    pose proof (census_actual_lookup cn resources ∅ ∅) as Har.
    destruct (census_loop cn resources ∅ ∅) as [rn ar]. simpl in Hrn, Har.
    change (has_need (cfg_needs_for configs)) with (needs_key configs) in Hrn.
    change (need_sum (cfg_needs_for configs)) with (fun k rs => needed configs rs k) in Hrn.
    simpl in Hrn. rewrite needs_loop_none. split.
    + intros H. split; [done|]. intros k Hk.
      specialize (Hrn k). rewrite Hk, lookup_empty in Hrn. simpl in Hrn. rewrite Z.add_0_l in Hrn.
      destruct (H k (int64_wrap (needed configs resources k))) as (a & Ha & Hle);
        [apply elem_of_map_to_list; rewrite Hrn; reflexivity|].
      specialize (Har k). rewrite lookup_empty in Har. simpl in Har. rewrite Z.add_0_l in Har.
      destruct (existsb (fun res => String.eqb (res_Type res) k) resources) eqn:Hx;
        [|congruence].
      apply existsb_type_count in Hx. rewrite Har in Ha. injection Ha as <-. lia.
    + intros [_ H] k n Hin. apply elem_of_map_to_list in Hin.
      specialize (Hrn k). rewrite lookup_empty in Hrn. simpl in Hrn. rewrite Z.add_0_l in Hrn.
      destruct (existsb (needs_key configs k) resources) eqn:Hk; [|congruence].
      rewrite Hin in Hrn. injection Hrn as ->.
      destruct (H k Hk) as [Hpos Hle].
      specialize (Har k). rewrite lookup_empty in Har. simpl in Har. rewrite Z.add_0_l in Har.
      apply existsb_type_count in Hpos. rewrite Hpos in Har.
      exists (int64_wrap (census_count resources k)). split; [exact Har | exact Hle].
Qed.

Lemma configNames_loop_error (configs : list ResourcesConfig) (m : gmap string ResourceNeeds) (e : Err) :
  configNames_loop configs m = inl e -> e = EMsg "config already exists".
Proof.
  revert m. induction configs as [|c configs IH]; intros m H; simpl in H; [discriminate|].
  destruct (m !! cfg_Name c); [congruence|]. eauto.
Qed.

(** Repeated config names are reported before the census is looked at:
    whatever the census, [ValidateConfig] then fails with the
    already-exists error. *)
Theorem ValidateConfig_duplicate_name (configs : list ResourcesConfig) (resources : list Resource) :
  ~ NoDup (map cfg_Name configs) ->
  ValidateConfig configs resources = Some (EMsg "config already exists").
Proof.
  intros Hnd. unfold ValidateConfig.
  destruct (configNames_loop configs ∅) as [e|cn] eqn:Hl.
  - by rewrite (configNames_loop_error _ _ _ Hl).
  - destruct (configNames_loop_ok _ _ _ Hl) as (Hnd' & _). contradiction.
Qed.

(** If no census resource has a type that names a config, the Needs play no
    part: [ValidateConfig] succeeds exactly when the config names are
    distinct (in particular for an empty config list or an empty census). *)
Theorem ValidateConfig_unused_configs (configs : list ResourcesConfig) (resources : list Resource) :
  (forall res, res ∈ resources -> cfg_lookup configs (res_Type res) = None) ->
  ValidateConfig configs resources = None <-> NoDup (map cfg_Name configs).
Proof.
  intros Hnone. rewrite ValidateConfig_none_iff. split; [tauto|]. intros Hnd. split; [done|].
  intros k Hk. exfalso. apply existsb_exists in Hk as (res & Hin & Hk).
  apply list_elem_of_In in Hin. unfold needs_key, cfg_needs_for in Hk.
  rewrite (Hnone res Hin) in Hk. discriminate.
Qed.

Lemma existsb_perm {A} (f : A -> bool) (l l' : list A) :
  Permutation l l' -> existsb f l = existsb f l'.
Proof.
  induction 1 as [|x l l' _ IH|x y l|l l' l'' _ IH1 _ IH2]; simpl; try congruence.
  - destruct (f x), (f y); done.
Qed.

Lemma needed_perm (configs : list ResourcesConfig) (l l' : list Resource) (k : string) :
  Permutation l l' -> needed configs l k = needed configs l' k.
Proof. unfold needed. induction 1; simpl; lia. Qed.

Lemma census_count_perm (l l' : list Resource) (k : string) :
  Permutation l l' -> census_count l k = census_count l' k.
Proof.
  unfold census_count. intros H. f_equal. apply Permutation_length.
  induction H as [|x l l' _ IH|x y l|l l' l'' _ IH1 _ IH2]; simpl.
  - constructor.
  - destruct (String.eqb _ _); [constructor|]; done.
  - destruct (String.eqb (res_Type x) k), (String.eqb (res_Type y) k); try constructor; try done.
  - by transitivity (List.filter (fun res => String.eqb (res_Type res) k) l').
Qed.

(** Whether [ValidateConfig] accepts a config set depends on the census only
    as a multiset of resources: reordering the census never changes it. *)
Theorem ValidateConfig_census_order (configs : list ResourcesConfig) (resources resources' : list Resource) :
  Permutation resources resources' ->
  ValidateConfig configs resources = None <-> ValidateConfig configs resources' = None.
Proof.
  intros Hp. rewrite !ValidateConfig_none_iff.
  assert (Hk : forall k, existsb (needs_key configs k) resources = existsb (needs_key configs k) resources')
    by (intros; by apply existsb_perm).
  assert (Hn : forall k, needed configs resources k = needed configs resources' k)
    by (intros; by apply needed_perm).
  assert (Hc : forall k, census_count resources k = census_count resources' k)
    by (intros; by apply census_count_perm).
  split; intros [Hnd H]; split; try done; intros k; [rewrite <- Hk, <- Hn, <- Hc | rewrite Hk, Hn, Hc]; auto.
Qed.

Lemma census_count_bound (l : list Resource) (k : string) :
  0 <= census_count l k <= Z.of_nat (length l).
Proof.
  unfold census_count. induction l as [|r l IH]; simpl; [lia|].
  destruct (String.eqb _ _); simpl; lia.
Qed.

(** Adding to the census a resource whose type names no config never turns
    an accepted config set into a rejected one, as long as the census is
    short enough (fewer than 2^63 - 1 resources) for the [int] count of
    the added resource's type not to wrap around. *)
Theorem ValidateConfig_extra_unconfigured (configs : list ResourcesConfig) (resources : list Resource)
    (res : Resource) :
  cfg_lookup configs (res_Type res) = None ->
  Z.of_nat (length resources) < 2^63 - 1 ->
  ValidateConfig configs resources = None -> ValidateConfig configs (res :: resources) = None.
Proof.
  intros Hnone Hlen. rewrite !ValidateConfig_none_iff. intros [Hnd H]. split; [done|].
  assert (Hkey : forall k, needs_key configs k res = false)
    by (intros k; unfold needs_key, cfg_needs_for; by rewrite Hnone).
  assert (Hneed : forall k, needed configs (res :: resources) k = needed configs resources k).
  { intros k. unfold needed. simpl. unfold cfg_needs_for at 1. rewrite Hnone. simpl. lia. }
  assert (Hcount : forall k, census_count resources k <= census_count (res :: resources) k
                             <= census_count resources k + 1).
  { intros k. unfold census_count. simpl. destruct (String.eqb _ _); simpl; lia. }
  intros k Hk. simpl in Hk. rewrite Hkey in Hk. simpl in Hk.
  destruct (H k Hk) as [Hpos Hle]. rewrite Hneed.
  specialize (Hcount k). pose proof (census_count_bound resources k) as Hb.
  rewrite (int64_wrap_small (census_count resources k)) in Hle by lia.
  rewrite (int64_wrap_small (census_count (res :: resources) k)) by lia. lia.
Qed.

(** ** Broker calls of the acquisition loops *)

Lemma fulfill_type_calls (E : Env) (P : Call -> Prop) (fuel : nat) (rType : string) (n : Z)
    (req : requirements) :
  P (CAcquire rType Free Leased) -> (forall nm st, P (CUpdateOne nm st None)) ->
  calls_ok P (fulfill_type E fuel rType n req).
Proof.
  intros HA HU. revert n req. induction fuel as [|fuel IH]; intros n req; simpl; [apply calls_ok_ret|].
  destruct (Z.ltb 0 n); [|apply calls_ok_ret].
  unfold updateResources. calls_tac;
    first [apply IH | apply calls_ok_Acquire; exact HA | apply calls_ok_UpdateOne; apply HU].
Qed.

Lemma fulfill_type_nonpositive (E : Env) (fuel : nat) (rType : string) (n : Z)
    (req : requirements) (s : St) :
  n <= 0 -> snd (fulfill_type E fuel rType n req s) = s.
Proof.
  intros Hn. destruct fuel; simpl; [done|]. by destruct (Z.ltb_spec 0 n); [lia|].
Qed.

Lemma fulfill_types_calls (E : Env) (fuel : nat) (needs0 : ResourceNeeds)
    (l : list (string * Z)) (req : requirements) :
  (forall t n, (t, n) ∈ l -> needs0 !! t = Some n) ->
  calls_ok (loop_call needs0) (fulfill_types E fuel l req).
Proof.
  revert req. induction l as [|[t n] l IH]; intros req Hl; simpl; [apply calls_ok_ret|].
  apply calls_ok_bind.
  - destruct (Z.ltb_spec 0 n) as [Hn|Hn].
    + apply fulfill_type_calls; [|done]. split_and!; [done|done|].
      exists n. split; [|done]. apply Hl. apply elem_of_cons. by left.
    + intros s. exists []. rewrite fulfill_type_nonpositive, app_nil_r; auto.
  - intros [o r']. destruct o; [apply calls_ok_ret| |apply calls_ok_ret].
    apply IH. intros t' n' Hin. apply Hl. apply elem_of_cons. by right.
Qed.

Lemma fulfillOne_finish_trace (E : Env) (r : requirements) (s : St) :
  trace (snd (fulfillOne_finish E r s)) = trace s \/
  exists u, trace (snd (fulfillOne_finish E r s)) =
    trace s ++ [CUpdateOne (res_Name (resource r)) (res_State (resource r)) (Some u)].
Proof.
  unfold fulfillOne_finish. destruct (isFulFilled r); [|by left].
  destruct (ud_Set _ _ _) as [e|ud]; [by left|]. right. exists ud.
  rewrite mbind_run. unfold UpdateOne at 1. cbn [fst snd]. destruct (b_UpdateOne _ _ _ _ _); reflexivity.
Qed.

(** [fulfillOne] never releases a resource nor acquires one by state: its
    broker calls are first those of the acquisition loops, [Acquire]s from
    free to leased of types the request needs with a positive count and
    heartbeat [UpdateOne]s with nil user-data, then at most one more call,
    an [UpdateOne] of the request's own resource in its state, with
    user-data, recording the lease. *)
Theorem fulfillOne_calls (E : Env) (fuel : nat) (req : requirements) (s : St) :
  exists cs1 cs2, trace (snd (fulfillOne E fuel req s)) = trace s ++ cs1 ++ cs2 /\
    Forall (loop_call (needs req)) cs1 /\
    (cs2 = [] \/
     exists u, cs2 = [CUpdateOne (res_Name (resource req)) (res_State (resource req)) (Some u)]).
Proof.
  unfold fulfillOne. rewrite mbind_run.
  destruct (fulfill_types_calls E fuel (needs req) (map_to_list (needs req)) req)
    with (s := s) as (cs1 & T1 & F1).
  { intros t n Hin. by apply elem_of_map_to_list. }
  destruct (fulfill_types E fuel (map_to_list (needs req)) req s) as [[o r'] s1] eqn:H1.
  cbn [fst snd] in *. exists cs1.
  destruct o.
  - exists []. rewrite app_nil_r. auto.
  - apply fulfill_types_completed in H1 as (R & _ & _); [|apply NoDup_fst_map_to_list].
    rewrite mbind_run. cbn [snd ret].
    destruct (fulfillOne_finish E r' s1) as [[e r''] s2] eqn:Hf.
    pose proof (fulfillOne_finish_trace E r' s1) as Ht. rewrite Hf in Ht. unfold ret. cbn [fst snd] in *.
    destruct Ht as [Ht|[u Ht]].
    + exists []. rewrite Ht, T1, app_nil_r. auto.
    + exists [CUpdateOne (res_Name (resource req)) (res_State (resource req)) (Some u)].
      rewrite Ht, T1, R, List.app_assoc. split_and!; eauto.
  - exists []. rewrite app_nil_r. auto.
Qed.

(** ** Instances of the further properties *)

Lemma cleanOne_success_witness :
  cleanOne env_greeter a1 ∅ st0 =
    ((None, snd (fst (cleanOne env_greeter a1 ∅ st0))), snd (cleanOne env_greeter a1 ∅ st0)) /\
  exists ud, trace (snd (cleanOne env_greeter a1 ∅ st0)) = [CUpdateOne "a1" Cleaning (Some ud)] /\
             ud !! "greeting" = Some "hi".
Proof.
  split; [vm_compute; reflexivity|].
  destruct (cleanOne_success env_greeter a1 (snd (fst (cleanOne env_greeter a1 ∅ st0))) ∅ st0
              (snd (cleanOne env_greeter a1 ∅ st0))) as (cfg & config & ud & Hc & Hconv & Hud & Ht & _);
    [vm_compute; reflexivity|].
  vm_compute in Hc. injection Hc as <-. vm_compute in Hconv. injection Hconv as <-.
  vm_compute in Hud. injection Hud as <-.
  eexists. split; [rewrite Ht; reflexivity | vm_compute; reflexivity].
Defined.

Lemma fulfillOne_loops_append_witness :
  fulfill_types env_ok 5 (map_to_list (needs req_wait)) req_wait st0 =
    ((LCompleted, snd (fst (fulfill_types env_ok 5 (map_to_list (needs req_wait)) req_wait st0))),
     snd (fulfill_types env_ok 5 (map_to_list (needs req_wait)) req_wait st0)) /\
  exists acq, length acq = 2%nat /\
    fulfillment (snd (fst (fulfill_types env_ok 5 (map_to_list (needs req_wait)) req_wait st0)))
      !! "B" = Some acq.
Proof.
  split; [vm_compute; reflexivity|].
  destruct (fulfillOne_loops_append env_ok 5 req_wait
              (snd (fst (fulfill_types env_ok 5 (map_to_list (needs req_wait)) req_wait st0))) st0
              (snd (fulfill_types env_ok 5 (map_to_list (needs req_wait)) req_wait st0)))
    as (_ & _ & H); [vm_compute; reflexivity|].
  destruct (H "B") as [Hacq _]. destruct (Hacq 2 eq_refl) as (acq & Hl & Hf); [lia|].
  exists acq. split; [exact Hl|]. rewrite Hf. reflexivity.
Defined.

Lemma fulfillOne_loops_fulfill_fresh_witness :
  fulfillment req_wait = ∅ /\ (forall t n, needs req_wait !! t = Some n -> 0 < n) /\
  isFulFilled (snd (fst (fulfill_types env_ok 5 (map_to_list (needs req_wait)) req_wait st0))) = true.
Proof.
  assert (Hpos : forall t n, needs req_wait !! t = Some n -> 0 < n).
  { intros t n Hn. unfold req_wait in Hn. cbn [needs] in Hn. unfold needs_B2 in Hn.
    apply lookup_singleton_Some in Hn as [_ <-]. lia. }
  split; [reflexivity|]. split; [exact Hpos|].
  apply (fulfillOne_loops_fulfill_fresh env_ok 5 req_wait _ st0
           (snd (fulfill_types env_ok 5 (map_to_list (needs req_wait)) req_wait st0)));
    [reflexivity | exact Hpos | vm_compute; reflexivity].
Defined.

Lemma fulfillOne_records_lease_witness :
  wait_run = ((Some None, wait_req'), snd wait_run) /\ isFulFilled wait_req' = true /\
  exists U, res_UserData (resource wait_req') = Some U /\ U !! LeasedResources = Some "[b1, b2]".
Proof.
  split; [vm_compute; reflexivity|]. split; [vm_compute; reflexivity|].
  destruct (fulfillOne_records_lease env_ok 5 req_wait wait_req' st0 (snd wait_run))
    as (c & tr & U & Henc & _ & HU & Hc & _); [vm_compute; reflexivity | vm_compute; reflexivity|].
  vm_compute in Henc. injection Henc as <-. eauto.
Defined.

Lemma fulfill_lease_reclaimed_by_recycle_witness :
  wait_run = ((Some None, wait_req'), snd wait_run) /\ isFulFilled wait_req' = true /\
  lease_value wait_req' <> None /\
  exists cs, trace (snd (recycleOne env_ok (resource wait_req') st0)) =
    CAcquireByState "a1" Leased ["b1"; "b2"] :: cs.
Proof.
  split; [vm_compute; reflexivity|]. split; [vm_compute; reflexivity|].
  split; [vm_compute; discriminate|].
  destruct (fulfill_lease_reclaimed_by_recycle env_ok 5 req_wait wait_req' st0 (snd wait_run) st0
              sample_cfg) as [cs Ht];
    [vm_compute; reflexivity | vm_compute; reflexivity | vm_compute; discriminate
    | intros c Hc; vm_compute in Hc; injection Hc as <-; vm_compute; reflexivity
    | vm_compute; reflexivity |].
  exists cs. rewrite Ht. vm_compute. reflexivity.
Defined.

Lemma fulfill_lease_parked_by_free_witness :
  wait_run = ((Some None, wait_req'), snd wait_run) /\ isFulFilled wait_req' = true /\
  trace (snd (freeOne env_ok (resource wait_req') st0)) =
    [CReleaseOne "a1" Free; CReleaseOne "b1" "a1"; CReleaseOne "b2" "a1"].
Proof.
  split; [vm_compute; reflexivity|]. split; [vm_compute; reflexivity|].
  rewrite (fulfill_lease_parked_by_free env_ok 5 req_wait wait_req' st0 (snd wait_run) st0);
    [vm_compute; reflexivity | vm_compute; reflexivity | vm_compute; reflexivity
    | intros c Hc; vm_compute in Hc; injection Hc as <-; vm_compute; reflexivity
    | vm_compute; reflexivity].
Defined.

Lemma fulfillAll_step_outcomes_witness :
  wait_run = ((Some None, wait_req'), snd wait_run) /\
  fulfilled (snd (fulfillAll_step env_ok 5 req_wait st0)) = [wait_req'].
Proof.
  split; [vm_compute; reflexivity|].
  destruct (fulfillAll_step_outcomes env_ok 5 req_wait wait_req' (Some None) st0 (snd wait_run))
    as (Hq & Hok & _); [vm_compute; reflexivity|].
  destruct (Hok eq_refl) as (_ & Hf & _). rewrite Hf. vm_compute. reflexivity.
Defined.

Lemma ValidateConfig_duplicate_name_witness :
  ~ NoDup (map cfg_Name [cfg_A; cfg_A]) /\
  ValidateConfig [cfg_A; cfg_A] [] = Some (EMsg "config already exists").
Proof.
  assert (Hd : ~ NoDup (map cfg_Name [cfg_A; cfg_A])).
  { intros H. inversion H as [|? ? Hn _]. apply Hn. constructor. }
  split; [exact Hd|]. apply ValidateConfig_duplicate_name. exact Hd.
Defined.

Lemma ValidateConfig_unused_configs_witness :
  (forall res, res ∈ [a1] -> cfg_lookup [sample_cfg] (res_Type res) = None) /\
  (ValidateConfig [sample_cfg] [a1] = None <-> NoDup ["cfg"]).
Proof.
  assert (Hu : forall res, res ∈ [a1] -> cfg_lookup [sample_cfg] (res_Type res) = None).
  { intros res Hin. apply list_elem_of_singleton in Hin as ->. reflexivity. }
  split; [exact Hu|]. apply ValidateConfig_unused_configs. exact Hu.
Defined.

Lemma ValidateConfig_census_order_witness :
  Permutation [b1; a1] [a1; b1] /\
  (ValidateConfig [cfg_A] [b1; a1] = None <-> ValidateConfig [cfg_A] [a1; b1] = None).
Proof.
  split; [apply perm_swap|]. apply ValidateConfig_census_order, perm_swap.
Defined.

Lemma ValidateConfig_extra_unconfigured_witness :
  cfg_lookup [cfg_A] (res_Type b2) = None /\ Z.of_nat (length [a1; b1]) < 2^63 - 1 /\
  ValidateConfig [cfg_A] [a1; b1] = None /\ ValidateConfig [cfg_A] [b2; a1; b1] = None.
Proof.
  split; [reflexivity|]. split; [simpl; lia|]. split; [vm_compute; reflexivity|].
  apply ValidateConfig_extra_unconfigured; [reflexivity | simpl; lia | vm_compute; reflexivity].
Defined.
